(** * isshc: the interactive receive loop of [InteractiveSSHClient]

    A shallow embedding of [src/isshc/isshc.py]: the helpers
    [_wait_recv_ready], [_try_decode], [_find_pattern] and the methods
    [recv_text] and [send_text], followed by the properties of the
    receive / match / auto-reply loop.

    Conventions of the embedding.
    - A Python [str] is a list of code points ([text]); [bytes] and
      [bytearray] are lists of [Byte.byte].
    - Seconds ([recv_timeout], clock readings, [total_seconds()]) are
      rationals: the floating-point rounding of Python is idealised.
    - The channel, the clock, the regular-expression engine and the codec
      are collaborators outside the repository.  They appear as an explicit
      interface; every call to the channel, the clock or the observer is
      recorded as an [Event], so that what the code does to its environment
      can be stated.  Faults the channel or the regular-expression engine
      could raise on their own (a socket error inside [send], an invalid
      regular expression) are outside the model.  The codec is fallible as
      in Python: [UnicodeDecodeError], which [_try_decode] handles, and
      [UnicodeEncodeError], which [send_text] lets through before anything
      is written, are both modelled.
    - [while True] and the drain loop are unbounded in Python; here they
      take fuel and report [OutOfFuel] when it runs out. *)

From Stdlib Require Import List ZArith NArith QArith Qminmax Bool Lia Lqa.
From Stdlib Require Import Strings.String Strings.Ascii Strings.Byte.
Import ListNotations.

Set Implicit Arguments.

(** ** Text and bytes *)

Definition codepoint := N.
Definition text := list codepoint.
Definition bytes := list byte.

Definition text_of_string (s : string) : text :=
  map N_of_ascii (list_ascii_of_string s).

Definition bytes_of_string (s : string) : bytes := list_byte_of_string s.

Definition text_eq_dec : forall a b : text, {a = b} + {a <> b} :=
  list_eq_dec N.eq_dec.

Definition text_eqb (a b : text) : bool :=
  if text_eq_dec a b then true else false.

(** Python truthiness of a [str] or a [bytearray]: non-empty. *)
Definition truthy {A} (l : list A) : bool :=
  match l with [] => false | _ :: _ => true end.

(** ** Codecs

    [bytes.decode(encoding, "strict")], [bytes.decode(encoding, "replace")]
    and [str.encode(encoding)] for one encoding.  [decode_strict] answers
    [None] where Python raises [UnicodeDecodeError], [encode] where it
    raises [UnicodeEncodeError]. *)

Record Codec := mkCodec {
  decode_strict : bytes -> option text;
  decode_replace : bytes -> text;
  encode : text -> option bytes
}.

(** *** UTF-8, the default encoding

    The scanner follows CPython's decoder: an ill-formed sequence is
    reported at its lead byte with the span of its maximal well-formed
    prefix, and a sequence cut by the end of the input is one error reaching
    to the end.  The strict handler fails at the first error; the replace
    handler turns every error span into one U+FFFD. *)

Inductive Item := Char (c : codepoint) | Malformed.

Definition replacement_character : codepoint := 0xFFFD%N.

Definition is_continuation (b : N) : bool := ((0x80 <=? b) && (b <? 0xC0))%N.

Definition low6 (b : N) : N := N.land b 0x3F.

Fixpoint utf8_scan (s : bytes) {struct s} : list Item :=
  match s with
  | [] => []
  | b0 :: s1 =>
    let ch := Byte.to_N b0 in
    if (ch <? 0x80)%N then Char ch :: utf8_scan s1
    else if (ch <? 0xC2)%N then Malformed :: utf8_scan s1
    else if (ch <? 0xE0)%N then
      match s1 with
      | [] => [Malformed]
      | b1 :: s2 =>
        let ch2 := Byte.to_N b1 in
        if is_continuation ch2
        then Char (N.lor (N.shiftl (N.land ch 0x1F) 6) (low6 ch2))
             :: utf8_scan s2
        else Malformed :: utf8_scan s1
      end
    else if (ch <? 0xF0)%N then
      match s1 with
      | [] => [Malformed]
      | b1 :: s2 =>
        let ch2 := Byte.to_N b1 in
        if negb (is_continuation ch2)
           || (if (ch2 <? 0xA0)%N then (ch =? 0xE0)%N else (ch =? 0xED)%N)
        then Malformed :: utf8_scan s1
        else
          match s2 with
          | [] => [Malformed]
          | b2 :: s3 =>
            let ch3 := Byte.to_N b2 in
            if is_continuation ch3
            then Char (N.lor (N.shiftl (N.land ch 0x0F) 12)
                             (N.lor (N.shiftl (low6 ch2) 6) (low6 ch3)))
                 :: utf8_scan s3
            else Malformed :: utf8_scan s2
          end
      end
    else if (ch <? 0xF5)%N then
      match s1 with
      | [] => [Malformed]
      | b1 :: s2 =>
        let ch2 := Byte.to_N b1 in
        if negb (is_continuation ch2)
           || (if (ch2 <? 0x90)%N then (ch =? 0xF0)%N else (ch =? 0xF4)%N)
        then Malformed :: utf8_scan s1
        else
          match s2 with
          | [] => [Malformed]
          | b2 :: s3 =>
            let ch3 := Byte.to_N b2 in
            if negb (is_continuation ch3)
            then Malformed :: utf8_scan s2
            else
              match s3 with
              | [] => [Malformed]
              | b3 :: s4 =>
                let ch4 := Byte.to_N b3 in
                if is_continuation ch4
                then Char (N.lor (N.shiftl (N.land ch 0x07) 18)
                            (N.lor (N.shiftl (low6 ch2) 12)
                              (N.lor (N.shiftl (low6 ch3) 6) (low6 ch4))))
                     :: utf8_scan s4
                else Malformed :: utf8_scan s3
              end
          end
      end
    else Malformed :: utf8_scan s1
  end.

Fixpoint strict_errors (items : list Item) : option text :=
  match items with
  | [] => Some []
  | Char c :: rest => option_map (cons c) (strict_errors rest)
  | Malformed :: _ => None
  end.

Definition replace_errors (items : list Item) : text :=
  map (fun i => match i with
                | Char c => c
                | Malformed => replacement_character
                end) items.

Definition byte_of_N (n : N) : byte :=
  match Byte.of_N n with Some b => b | None => x00 end.

(** The Unicode scalar values: every code point of a [str] except the
    surrogates U+D800..U+DFFF, which a [str] can hold and UTF-8 cannot
    express. *)
Definition is_scalar_value (c : codepoint) : bool :=
  ((c <? 0xD800) || ((0xE000 <=? c) && (c <? 0x110000)))%N.

(** The UTF-8 form of one code point: its bits spread over one to four
    bytes. *)
Definition utf8_encode_codepoint (c : codepoint) : bytes :=
  if (c <? 0x80)%N then [byte_of_N c]
  else if (c <? 0x800)%N then
    [byte_of_N (N.lor 0xC0 (N.shiftr c 6));
     byte_of_N (N.lor 0x80 (low6 c))]
  else if (c <? 0x10000)%N then
    [byte_of_N (N.lor 0xE0 (N.shiftr c 12));
     byte_of_N (N.lor 0x80 (low6 (N.shiftr c 6)));
     byte_of_N (N.lor 0x80 (low6 c))]
  else
    [byte_of_N (N.lor 0xF0 (N.land (N.shiftr c 18) 0x07));
     byte_of_N (N.lor 0x80 (low6 (N.shiftr c 12)));
     byte_of_N (N.lor 0x80 (low6 (N.shiftr c 6)));
     byte_of_N (N.lor 0x80 (low6 c))].

Definition utf8_encode (t : text) : bytes :=
  flat_map utf8_encode_codepoint t.

(** [str.encode("utf-8")]: the strict handler refuses a text that holds
    a surrogate.  (No [str] holds a code point above U+10FFFF; the model
    refuses such a list as well.) *)
Definition utf8_encode_strict (t : text) : option bytes :=
  if forallb is_scalar_value t then Some (utf8_encode t) else None.

Definition utf8 : Codec :=
  mkCodec (fun s => strict_errors (utf8_scan s))
          (fun s => replace_errors (utf8_scan s))
          utf8_encode_strict.

(** ** Effects: exceptions, events and the monad of the client *)

(** [UnicodeEncodeError] is a subclass of [ValueError] in Python; it is
    kept apart here, with the text that could not be encoded. *)
Inductive Exn :=
| ValueError (msg : string)
| RuntimeError (msg : string)
| KeyError (key : text)
| UnicodeEncodeError (object : text).

Inductive Outcome (A : Type) :=
| Ret (a : A)
| Raise (e : Exn)
| OutOfFuel.

Arguments Ret {A} a.
Arguments Raise {A} e.
Arguments OutOfFuel {A}.

(** What the client does to its environment, in order. *)
Inductive Event :=
| EvNow (t : Q)                                  (* datetime.now() *)
| EvSelect (timeout : option Q) (ready : bool)   (* select.select *)
| EvRecvReady (ready : bool)                     (* channel.recv_ready() *)
| EvRecv (nbytes : Z) (data : bytes)             (* channel.recv(nbytes) *)
| EvSend (data : bytes) (sent : Z)               (* channel.send(data) *)
| EvObserve (chunk : text).                      (* on_recv_partial_text *)

Definition Dict := list (text * text).

Definition keys (d : Dict) : list text := map fst d.

Fixpoint dict_get (d : Dict) (k : text) : option text :=
  match d with
  | [] => None
  | (k', v) :: rest => if text_eq_dec k' k then Some v else dict_get rest k
  end.

(** [a or b] on an optional collection: [a] when it is neither [None] nor
    empty. *)
Definition py_or {A} (a : option (list A)) (b : list A) : list A :=
  match a with
  | Some ((_ :: _) as l) => l
  | _ => b
  end.

(** [if x := e:] binds the value of [e] and takes the branch only when that
    value is truthy: neither [None] nor the empty string. *)
Definition if_truthy (x : option text) : option text :=
  match x with
  | Some ((_ :: _) as p) => Some p
  | _ => None
  end.

(** [if arg is None: arg = default or {}] *)
Definition or_default {A} (arg default : option (list A)) : list A :=
  match arg with
  | Some l => l
  | None => py_or default []
  end.

(** [max(0, x)]: the second argument only when it is strictly greater. *)
Definition max0 (x : Q) : Q := if Qle_bool x 0 then 0 else x.

Section Client.

(** The state of everything outside the client: the peer, the network,
    the clock, whatever the observer writes to. *)
Variable W : Type.

(** [datetime.now()], in seconds. *)
Variable now : W -> Q * W.

(** [re.search(pattern, text)] as a truth value. *)
Variable re_search : text -> text -> bool.

Definition M (A : Type) : Type := W -> Outcome A * W * list Event.

Definition ret {A} (a : A) : M A := fun w => (Ret a, w, []).

Definition raise {A} (e : Exn) : M A := fun w => (Raise e, w, []).

Definition out_of_fuel {A} : M A := fun w => (OutOfFuel, w, []).

Definition bind {A B} (m : M A) (k : A -> M B) : M B :=
  fun w =>
    match m w with
    | (Ret a, w1, ev1) =>
      match k a w1 with
      | (r, w2, ev2) => (r, w2, ev1 ++ ev2)
      end
    | (Raise e, w1, ev1) => (Raise e, w1, ev1)
    | (OutOfFuel, w1, ev1) => (OutOfFuel, w1, ev1)
    end.

Notation "x <- m ;; k" := (bind m (fun x => k))
  (at level 61, m at next level, right associativity).
Notation "m ;;; k" := (bind m (fun _ => k))
  (at level 61, right associativity).

(** The duck-typed surface of a paramiko channel the client relies on. *)
Record Channel := mkChannel {
  closed : W -> bool;                     (* attribute .closed *)
  select : option Q -> W -> bool * W;     (* bool(rlist) of select.select *)
  recv_ready : W -> bool * W;
  recv : Z -> W -> bytes * W;
  send : bytes -> W -> Z * W
}.

(** The attributes of the client; [encoding] is the codec that the name
    held by [self.encoding] designates. *)
Record InteractiveSSHClient := mkClient {
  auto_replies : option Dict;
  encoding : Codec;
  on_recv_partial_text : option (text -> W -> W);
  prompts : option (list text);
  recv_nbytes : Z;
  recv_timeout : Q;
  _session : option Channel
}.

(** *** Primitive operations, each leaving its event *)

Definition datetime_now : M Q :=
  fun w => let (t, w') := now w in (Ret t, w', [EvNow t]).

Definition is_closed (channel : Channel) : M bool :=
  fun w => (Ret (closed channel w), w, []).

Definition channel_recv_ready (channel : Channel) : M bool :=
  fun w => let (r, w') := recv_ready channel w in (Ret r, w', [EvRecvReady r]).

Definition channel_recv (channel : Channel) (nbytes : Z) : M bytes :=
  fun w =>
    let (data, w') := recv channel nbytes w in
    (Ret data, w', [EvRecv nbytes data]).

Definition channel_send (channel : Channel) (data : bytes) : M Z :=
  fun w =>
    let (n, w') := send channel data w in (Ret n, w', [EvSend data n]).

Definition notify (self : InteractiveSSHClient) (chunk : text) : M unit :=
  match on_recv_partial_text self with
  | Some handler => fun w => (Ret tt, handler chunk w, [EvObserve chunk])
  | None => ret tt
  end.

(** *** The module-level helpers *)

Definition _wait_recv_ready (channel : Channel) (timeout : option Q)
  : M bool :=
  fun w =>
    let (ready, w') := select channel timeout w in
    (Ret ready, w', [EvSelect timeout ready]).

Definition _try_decode (data : bytes) (encoding : Codec) : option text :=
  decode_strict encoding data.

Fixpoint _find_pattern (patterns : list text) (txt : text) : option text :=
  match patterns with
  | [] => None
  | pattern :: rest =>
    if re_search pattern txt then Some pattern else _find_pattern rest txt
  end.

(** *** send_text

    The argument [text.encode(self.encoding)] is evaluated before the call
    of [send]: a text the codec refuses raises before anything is
    written. *)

Definition send_text (self : InteractiveSSHClient) (txt : text) : M Z :=
  match _session self with
  | None => raise (RuntimeError "Not connected.")
  | Some session =>
    match encode (encoding self) txt with
    | None => raise (UnicodeEncodeError txt)
    | Some data => channel_send session data
    end
  end.

(** *** recv_text *)

Record LoopState := mkLoop {
  wait_start_time : Q;
  recv_buffer : bytes;
  text_buffer : text;
  text_archived : text
}.

(** How one pass of [while True] ends. *)
Inductive Control :=
| Continue (st : LoopState)               (* continue, or fall off the end *)
| Break (st : LoopState)                  (* break *)
| Return (r : text * option text).        (* return inside the loop *)

(** [text_archived += text_buffer], as done before both [break]s. *)
Definition archive_on_break (st : LoopState) : LoopState :=
  mkLoop (wait_start_time st) (recv_buffer st) (text_buffer st)
         (text_archived st ++ text_buffer st).

(** [while self._session.recv_ready(): recv_buffer.extend(recv(n))] *)
Fixpoint drain (fuel : nat) (session : Channel) (nbytes : Z) (buf : bytes)
  : M bytes :=
  match fuel with
  | O => out_of_fuel
  | S fuel' =>
    ready <- channel_recv_ready session ;;
    if ready
    then data <- channel_recv session nbytes ;;
         drain fuel' session nbytes (buf ++ data)
    else ret buf
  end.

Definition recv_pass (self : InteractiveSSHClient)
    (auto_replies : Dict) (prompts : list text)
    (fuel : nat) (st : LoopState) : M Control :=
  match _session self with
  | None => ret (Break (archive_on_break st))
  | Some session =>
    is_down <- is_closed session ;;
    if is_down then ret (Break (archive_on_break st)) else
    t <- datetime_now ;;
    let elapsed := t - wait_start_time st in
    let timeout_remaining := max0 (recv_timeout self - elapsed) in
    ready <- _wait_recv_ready session (Some timeout_remaining) ;;
    if negb ready then ret (Break (archive_on_break st)) else
    buf <- drain fuel session (recv_nbytes self) (recv_buffer st) ;;
    match _try_decode buf (encoding self) with
    | None =>
      ret (Continue (mkLoop (wait_start_time st) buf
                            (text_buffer st) (text_archived st)))
    | Some decoded =>
      notify self decoded ;;;
      let text_buffer' := text_buffer st ++ decoded in
      match if_truthy (_find_pattern (keys auto_replies) text_buffer') with
      | Some auto_reply =>
        match dict_get auto_replies auto_reply with
        | None => raise (KeyError auto_reply)
        | Some reply_text =>
          send_text self reply_text ;;;
          t' <- datetime_now ;;
          ret (Continue (mkLoop t' [] []
                                (text_archived st ++ text_buffer')))
        end
      | None =>
        match if_truthy (_find_pattern prompts text_buffer') with
        | Some prompt =>
          ret (Return (text_archived st ++ text_buffer', Some prompt))
        | None =>
          ret (Continue (mkLoop (wait_start_time st) []
                                text_buffer' (text_archived st)))
        end
      end
    end
  end.

(** How the loop as a whole ends. *)
Inductive LoopExit :=
| Broke (st : LoopState)
| Returned (r : text * option text).

(** [while True]: [fuel] bounds the passes, [dfuel] the drain loop of
    each pass. *)
Fixpoint recv_loop (self : InteractiveSSHClient)
    (auto_replies : Dict) (prompts : list text)
    (dfuel fuel : nat) (st : LoopState) : M LoopExit :=
  match fuel with
  | O => out_of_fuel
  | S fuel' =>
    c <- recv_pass self auto_replies prompts dfuel st ;;
    match c with
    | Continue st' => recv_loop self auto_replies prompts dfuel fuel' st'
    | Break st' => ret (Broke st')
    | Return r => ret (Returned r)
    end
  end.

(** The code after the loop. *)
Definition recv_epilogue (self : InteractiveSSHClient) (st : LoopState)
  : M (text * option text) :=
  text_broken <-
    (if truthy (recv_buffer st)
     then let text_broken := decode_replace (encoding self) (recv_buffer st) in
          notify self text_broken ;;; ret text_broken
     else ret []) ;;
  ret ((text_archived st ++ text_buffer st) ++ text_broken, None).

Definition initial_state (t : Q) : LoopState := mkLoop t [] [] [].

Definition recv_text (self : InteractiveSSHClient)
    (auto_replies_arg : option Dict) (prompts_arg : option (list text))
    (fuel : nat) : M (text * option text) :=
  if (recv_nbytes self <=? 0)%Z
  then raise (ValueError "recv_nbytes must be greater than 0.")
  else if Qle_bool (recv_timeout self) 0
  then raise (ValueError "recv_timeout must be greater than 0.")
  else
    let auto_replies := or_default auto_replies_arg (auto_replies self) in
    let prompts := or_default prompts_arg (prompts self) in
    wait_start_time <- datetime_now ;;
    exit <- recv_loop self auto_replies prompts fuel fuel
                      (initial_state wait_start_time) ;;
    match exit with
    | Returned r => ret r
    | Broke st => recv_epilogue self st
    end.

(** *** Vocabulary for the statements about the loop *)

(** The state at a pass boundary: [n] passes of the loop, each of which
    continued.  [None] when the loop was left earlier. *)
Fixpoint recv_passes (self : InteractiveSSHClient)
    (auto_replies : Dict) (prompts : list text)
    (dfuel n : nat) (st : LoopState) : M (option LoopState) :=
  match n with
  | O => ret (Some st)
  | S n' =>
    c <- recv_pass self auto_replies prompts dfuel st ;;
    match c with
    | Continue st' => recv_passes self auto_replies prompts dfuel n' st'
    | _ => ret None
    end
  end.

(** The configuration [recv_text] accepts. *)
Definition valid_configuration (self : InteractiveSSHClient) : Prop :=
  (0 < recv_nbytes self)%Z /\ 0 < recv_timeout self.


(** What the observer call does to the world and leaves in the trace. *)
Definition notified (self : InteractiveSSHClient) (chunk : text) (w : W)
  : W :=
  match on_recv_partial_text self with
  | Some handler => handler chunk w
  | None => w
  end.

Definition notification (self : InteractiveSSHClient) (chunk : text)
  : list Event :=
  match on_recv_partial_text self with
  | Some _ => [EvObserve chunk]
  | None => []
  end.

(** The wait of a pass that reads the clock at [t]. *)
Definition remaining (self : InteractiveSSHClient) (st : LoopState) (t : Q)
  : Q :=
  max0 (recv_timeout self - (t - wait_start_time st)).

(** The courses one pass can take, as a relation between the state and
    world before it and its outcome, the world and the events after it.
    [recv_pass_course] below shows that every run of [recv_pass] is one of
    them. *)
Section Courses.

Variables (self : InteractiveSSHClient) (auto_replies : Dict)
          (prompts : list text) (dfuel : nat) (st : LoopState) (w : W).

Inductive pass_course : Outcome Control -> W -> list Event -> Prop :=
| NoSession :
    _session self = None ->
    pass_course (Ret (Break (archive_on_break st))) w []
| SessionClosed session :
    _session self = Some session ->
    closed session w = true ->
    pass_course (Ret (Break (archive_on_break st))) w []
| TimedOut session t w1 w2 :
    _session self = Some session ->
    closed session w = false ->
    now w = (t, w1) ->
    select session (Some (remaining self st t)) w1 = (false, w2) ->
    pass_course (Ret (Break (archive_on_break st))) w2
                [EvNow t; EvSelect (Some (remaining self st t)) false]
| DrainStarved session t w1 w2 w3 reads :
    _session self = Some session ->
    closed session w = false ->
    now w = (t, w1) ->
    select session (Some (remaining self st t)) w1 = (true, w2) ->
    drain dfuel session (recv_nbytes self) (recv_buffer st) w2
      = (OutOfFuel, w3, reads) ->
    pass_course OutOfFuel w3
                ([EvNow t; EvSelect (Some (remaining self st t)) true]
                   ++ reads)
| Undecoded session t w1 w2 w3 reads buf :
    _session self = Some session ->
    closed session w = false ->
    now w = (t, w1) ->
    select session (Some (remaining self st t)) w1 = (true, w2) ->
    drain dfuel session (recv_nbytes self) (recv_buffer st) w2
      = (Ret buf, w3, reads) ->
    decode_strict (encoding self) buf = None ->
    pass_course
      (Ret (Continue (mkLoop (wait_start_time st) buf
                             (text_buffer st) (text_archived st))))
      w3
      ([EvNow t; EvSelect (Some (remaining self st t)) true] ++ reads)
| Replied session t w1 w2 w3 reads buf decoded pattern reply data n w4 t' w5 :
    _session self = Some session ->
    closed session w = false ->
    now w = (t, w1) ->
    select session (Some (remaining self st t)) w1 = (true, w2) ->
    drain dfuel session (recv_nbytes self) (recv_buffer st) w2
      = (Ret buf, w3, reads) ->
    decode_strict (encoding self) buf = Some decoded ->
    if_truthy (_find_pattern (keys auto_replies)
                             (text_buffer st ++ decoded)) = Some pattern ->
    dict_get auto_replies pattern = Some reply ->
    encode (encoding self) reply = Some data ->
    send session data (notified self decoded w3) = (n, w4) ->
    now w4 = (t', w5) ->
    pass_course
      (Ret (Continue (mkLoop t' [] []
                        (text_archived st ++ (text_buffer st ++ decoded)))))
      w5
      ([EvNow t; EvSelect (Some (remaining self st t)) true] ++ reads
         ++ notification self decoded
         ++ [EvSend data n; EvNow t'])
| ReplyRefused session t w1 w2 w3 reads buf decoded pattern reply :
    _session self = Some session ->
    closed session w = false ->
    now w = (t, w1) ->
    select session (Some (remaining self st t)) w1 = (true, w2) ->
    drain dfuel session (recv_nbytes self) (recv_buffer st) w2
      = (Ret buf, w3, reads) ->
    decode_strict (encoding self) buf = Some decoded ->
    if_truthy (_find_pattern (keys auto_replies)
                             (text_buffer st ++ decoded)) = Some pattern ->
    dict_get auto_replies pattern = Some reply ->
    encode (encoding self) reply = None ->
    pass_course (Raise (UnicodeEncodeError reply)) (notified self decoded w3)
      ([EvNow t; EvSelect (Some (remaining self st t)) true] ++ reads
         ++ notification self decoded)
| ReplyMissing session t w1 w2 w3 reads buf decoded pattern :
    _session self = Some session ->
    closed session w = false ->
    now w = (t, w1) ->
    select session (Some (remaining self st t)) w1 = (true, w2) ->
    drain dfuel session (recv_nbytes self) (recv_buffer st) w2
      = (Ret buf, w3, reads) ->
    decode_strict (encoding self) buf = Some decoded ->
    if_truthy (_find_pattern (keys auto_replies)
                             (text_buffer st ++ decoded)) = Some pattern ->
    dict_get auto_replies pattern = None ->
    pass_course (Raise (KeyError pattern)) (notified self decoded w3)
      ([EvNow t; EvSelect (Some (remaining self st t)) true] ++ reads
         ++ notification self decoded)
| Prompted session t w1 w2 w3 reads buf decoded prompt :
    _session self = Some session ->
    closed session w = false ->
    now w = (t, w1) ->
    select session (Some (remaining self st t)) w1 = (true, w2) ->
    drain dfuel session (recv_nbytes self) (recv_buffer st) w2
      = (Ret buf, w3, reads) ->
    decode_strict (encoding self) buf = Some decoded ->
    if_truthy (_find_pattern (keys auto_replies)
                             (text_buffer st ++ decoded)) = None ->
    if_truthy (_find_pattern prompts (text_buffer st ++ decoded))
      = Some prompt ->
    pass_course
      (Ret (Return (text_archived st ++ (text_buffer st ++ decoded),
                    Some prompt)))
      (notified self decoded w3)
      ([EvNow t; EvSelect (Some (remaining self st t)) true] ++ reads
         ++ notification self decoded)
| Unmatched session t w1 w2 w3 reads buf decoded :
    _session self = Some session ->
    closed session w = false ->
    now w = (t, w1) ->
    select session (Some (remaining self st t)) w1 = (true, w2) ->
    drain dfuel session (recv_nbytes self) (recv_buffer st) w2
      = (Ret buf, w3, reads) ->
    decode_strict (encoding self) buf = Some decoded ->
    if_truthy (_find_pattern (keys auto_replies)
                             (text_buffer st ++ decoded)) = None ->
    if_truthy (_find_pattern prompts (text_buffer st ++ decoded)) = None ->
    pass_course
      (Ret (Continue (mkLoop (wait_start_time st) []
                             (text_buffer st ++ decoded)
                             (text_archived st))))
      (notified self decoded w3)
      ([EvNow t; EvSelect (Some (remaining self st t)) true] ++ reads
         ++ notification self decoded).

End Courses.

End Client.

Arguments mkChannel {W}.
Arguments mkClient {W}.

(** ** Vocabulary for the statements about traces *)

(** All bytes the channel handed over, in order. *)
Definition received (evs : list Event) : bytes :=
  flat_map (fun e => match e with EvRecv _ data => data | _ => [] end) evs.

(** The chunks given to the observer, in order. *)
Definition observed (evs : list Event) : list text :=
  flat_map (fun e => match e with EvObserve chunk => [chunk] | _ => [] end) evs.

(** The writes, in order. *)
Definition written (evs : list Event) : list bytes :=
  flat_map (fun e => match e with EvSend data _ => [data] | _ => [] end) evs.

(** Events of the drain loop only. *)
Definition is_read (e : Event) : Prop :=
  match e with
  | EvRecvReady _ | EvRecv _ _ => True
  | _ => False
  end.


(** The received bytes split into pieces that each decoded strictly, with
    their texts, followed by a rest that did not. *)
Definition decoded_in_segments (encoding : Codec)
    (segments : list (bytes * text)) : Prop :=
  Forall (fun s => decode_strict encoding (fst s) = Some (snd s)) segments.

(** What holds of the loop state [st] at a pass boundary, [evs] being the
    events of the call so far: the bytes received are pieces that each
    decoded strictly, followed by [recv_buffer]; the texts of those pieces
    make up [text_archived + text_buffer]; a non-empty [recv_buffer] does not
    decode strictly; and an observer, if configured, was given exactly the
    texts of the pieces. *)
Definition boundary_invariant (encoding : Codec) (observing : Prop)
    (st : LoopState) (evs : list Event) : Prop :=
  exists segments,
    decoded_in_segments encoding segments
    /\ received evs = List.concat (map fst segments) ++ recv_buffer st
    /\ text_archived st ++ text_buffer st = List.concat (map snd segments)
    /\ (recv_buffer st <> [] ->
        decode_strict encoding (recv_buffer st) = None)
    /\ (observing -> observed evs = map snd segments).

Definition newline : string := String "010"%char EmptyString.

(** ** A scripted environment

    A deterministic peer for running the client: data arrives in bursts
    after given delays, each write releases the next scripted answer, and
    the clock moves only while [select] waits. *)

Module Script.

Record World := mkWorld {
  clock : Q;
  eof : bool;                         (* peer closes after the last burst *)
  readable : bytes;                   (* buffered in the channel *)
  arrivals : list (Q * bytes);        (* (delay, data), in order *)
  answers : list (list (Q * bytes));  (* bursts released by each write *)
  sent : list bytes;                  (* what was written *)
  seen : list text                    (* what the observer was given *)
}.

Definition now (w : World) : Q * World := (clock w, w).

Definition closed (w : World) : bool :=
  eof w && negb (truthy (readable w)) && negb (truthy (arrivals w)).

Definition set_clock (t : Q) (w : World) : World :=
  mkWorld t (eof w) (readable w) (arrivals w) (answers w) (sent w) (seen w).

Definition select (timeout : option Q) (w : World) : bool * World :=
  match readable w, arrivals w with
  | _ :: _, _ => (true, w)
  | [], [] =>
    (false, match timeout with
            | Some d => set_clock (clock w + d) w
            | None => w
            end)
  | [], (delay, data) :: rest =>
    let arrive :=
      (true, mkWorld (clock w + delay) (eof w) data rest
                     (answers w) (sent w) (seen w)) in
    match timeout with
    | None => arrive
    | Some d =>
      if Qle_bool delay d then arrive
      else (false, mkWorld (clock w + d) (eof w) [] ((delay - d, data) :: rest)
                           (answers w) (sent w) (seen w))
    end
  end.

Definition recv_ready (w : World) : bool * World := (truthy (readable w), w).

Definition recv (nbytes : Z) (w : World) : bytes * World :=
  let n := Z.to_nat nbytes in
  (firstn n (readable w),
   mkWorld (clock w) (eof w) (skipn n (readable w)) (arrivals w)
           (answers w) (sent w) (seen w)).

Definition send (data : bytes) (w : World) : Z * World :=
  (Z.of_nat (List.length data),
   mkWorld (clock w) (eof w) (readable w)
           (arrivals w ++ hd [] (answers w)) (tl (answers w))
           (sent w ++ [data]) (seen w)).

Definition observer (chunk : text) (w : World) : World :=
  mkWorld (clock w) (eof w) (readable w) (arrivals w) (answers w)
          (sent w) (seen w ++ [chunk]).

Definition channel : Channel World :=
  mkChannel closed select recv_ready recv send.

Definition world (eof : bool) (arrivals : list (Q * bytes))
    (answers : list (list (Q * bytes))) : World :=
  mkWorld 0 eof [] arrivals answers [] [].

(** [re.search] for patterns without metacharacters: the pattern occurs
    as a contiguous piece of the text. *)
Fixpoint starts_with (p t : text) : bool :=
  match p, t with
  | [], _ => true
  | _ :: _, [] => false
  | a :: p', b :: t' => (a =? b)%N && starts_with p' t'
  end.

Fixpoint literal_search (p t : text) : bool :=
  starts_with p t ||
  match t with
  | [] => false
  | _ :: t' => literal_search p t'
  end.

(** The client as [__init__] leaves it, with a session attached. *)
Definition client (session : option (Channel World)) :
  InteractiveSSHClient World :=
  mkClient None utf8 None None 1024%Z 30 session.

Definition with_patterns (auto_replies : option Dict)
    (prompts : option (list text)) (c : InteractiveSSHClient World) :=
  mkClient auto_replies (encoding c) (on_recv_partial_text c) prompts
           (recv_nbytes c) (recv_timeout c) (_session c).

Definition with_observer (c : InteractiveSSHClient World) :=
  mkClient (auto_replies c) (encoding c) (Some observer) (prompts c)
           (recv_nbytes c) (recv_timeout c) (_session c).

Definition run_recv_text c auto_replies prompts fuel w :=
  recv_text now literal_search c auto_replies prompts fuel w.

(** *** Scenarios *)

(** A password dialogue: "Password:" arrives after one second, and
    "prompt>" two seconds after the client has written its answer. *)
Definition password_replies : Dict :=
  [(text_of_string "Password:", text_of_string ("secret" ++ newline))].

Definition shell_prompts : list text := [text_of_string "prompt>"].

Definition password_dialogue : World :=
  world false [(1, bytes_of_string "Password:")]
              [[(2, bytes_of_string "prompt>")]].

(** U+00E9, encoded C3 A9, arriving one byte at a time; then silence. *)
Definition split_e_acute : World :=
  world false [(1, [xc3]); (1, [xa9])] [].

(** "p" arrives; the auto-reply map has the empty pattern as its key. *)
Definition empty_pattern_replies : Dict := [([], text_of_string "x")].

Definition p_arrives : World := world false [(1, bytes_of_string "p")] [].

(** The peer sends the first byte of a two-byte sequence and closes. *)
Definition closes_mid_character : World := world true [(1, [xc3])] [].

(** The peer has closed before anything arrived. *)
Definition closed_from_the_start : World := world true [] [].

Definition misconfigured : InteractiveSSHClient World :=
  mkClient None utf8 None None 0%Z 30 (Some channel).

(** The data of [test_recv_text_decode_fails]: FF FE FF FE, then silence. *)
Definition undecodable : World := world false [(1, [xff; xfe; xff; xfe])] [].

(** The dialogue of [test_recv_text_prompt_and_reply]. *)
Definition yes_replies : Dict :=
  [(text_of_string "Password:", text_of_string ("yes" ++ newline))].

Definition dummy_text : string := "dummy text not including any patterns".

Definition dialogue_with_dummy_text : World :=
  world false [(1, bytes_of_string "Password:")]
              [[(1, bytes_of_string dummy_text);
                (1, bytes_of_string "prompt>")]].


(** An empty key ahead of a key that matches what arrives. *)
Definition hidden_pattern_replies : Dict :=
  [([], text_of_string "x"); (text_of_string "p", text_of_string "y")].

(** Projections of a run, for stating facts about a concrete one. *)
Definition events_of {A} (r : Outcome A * World * list Event) : list Event :=
  snd r.

Definition world_of {A} (r : Outcome A * World * list Event) : World :=
  snd (fst r).

Definition state_of (r : Outcome (option LoopState) * World * list Event)
  : LoopState :=
  match fst (fst r) with
  | Ret (Some st) => st
  | _ => initial_state 0
  end.

Definition exit_state_of (r : Outcome LoopExit * World * list Event)
  : LoopState :=
  match fst (fst r) with
  | Ret (Broke st) => st
  | _ => initial_state 0
  end.

End Script.

(** ** The life cycle of the shell

    [open_shell], [close_shell] and the private methods under them.  They
    change [self._session] in place and are written with [try] / [except],
    so here the client is part of the state and a call of the transport
    library may fail: [E] is the type of the exceptions it raises.  The calls
    the code makes outside a [try] ([close] of a channel or of the
    connection) are total, as for the receive loop. *)

Definition set_session {W} (self : InteractiveSSHClient W)
    (session : option (Channel W)) : InteractiveSSHClient W :=
  mkClient (auto_replies self) (encoding self) (on_recv_partial_text self)
           (prompts self) (recv_nbytes self) (recv_timeout self) session.

(** The client as [__init__] leaves it. *)
Definition __init__ (W : Type) : InteractiveSSHClient W :=
  mkClient None utf8 None None 1024%Z 30 None.

Inductive Level := Debug | Info | Exception.

Section Lifecycle.

Variable W : Type.
Variable E : Type.              (* exceptions of the transport library *)
Variable Transport : Type.      (* paramiko.Transport *)
Variable V : Type.              (* values of keyword arguments *)

Definition Kwargs := list (string * V).

(** [kwargs.get(key, default)] *)
Fixpoint kwargs_get (kwargs : Kwargs) (key : string) (default : V) : V :=
  match kwargs with
  | [] => default
  | (k, v) :: rest =>
    if string_dec k key then v else kwargs_get rest key default
  end.

(** What the life cycle uses of paramiko beyond the [Channel] surface of the
    receive loop.  [paramiko.config.SSH_PORT] is not in the repository: it
    is a field here. *)
Record Paramiko := mkParamiko {
  sshc_connect : string -> Kwargs -> W -> option E * W;
  sshc_get_transport : W -> (E + option Transport) * W;
  sshc_close : W -> W;
  transport_open_session : Transport -> W -> (E + Channel W) * W;
  channel_get_pty : Channel W -> W -> option E * W;
  channel_invoke_shell : Channel W -> W -> option E * W;
  channel_close : Channel W -> W -> W;
  _SSH_DEFAULT_PORT : V
}.

Variable paramiko : Paramiko.

(** The log records, with the values their f-strings interpolate. *)
Inductive Message :=
| ConnectionClosed                              (* "Connection closed." *)
| ShellTerminated                               (* "Interactive shell terminated." *)
| Connecting (hostname : string) (port : V)     (* "Connecting to h:p." *)
| Connected (hostname : string) (port : V)      (* "Successfully connected to h:p." *)
| ConnectFailed (hostname : string) (port : V)  (* "Failed to connect to h:p." *)
| OpeningShell                                  (* "Opening an interactive shell." *)
| ShellOpened                                   (* "Successfully opened an interactive shell." *)
| OpenShellFailed.                              (* "Failed to open an interactive shell." *)

Inductive LifeEvent :=
| LvLog (level : Level) (message : Message)
| LvConnect (hostname : string) (kwargs : Kwargs)   (* _sshc.connect *)
| LvGetTransport                                    (* _sshc.get_transport() *)
| LvOpenSession                                     (* transport.open_session() *)
| LvGetPty                                          (* _session.get_pty() *)
| LvInvokeShell                                     (* _session.invoke_shell() *)
| LvChannelClose                                    (* _session.close() *)
| LvConnectionClose.                                (* _sshc.close() *)

Inductive Failure :=
| AssertionError
| Library (e : E).

Inductive Result (A : Type) :=
| Done (a : A)
| Failed (f : Failure).

Arguments Done {A} a.
Arguments Failed {A} f.

(** A method of the client: it may replace [self._session], change the
    world and fail; its events are kept in both cases. *)
Definition L (A : Type) : Type :=
  InteractiveSSHClient W -> W ->
  Result A * InteractiveSSHClient W * W * list LifeEvent.

Definition done {A} (a : A) : L A := fun self w => (Done a, self, w, []).

Definition fail {A} (f : Failure) : L A := fun self w => (Failed f, self, w, []).

Definition then_ {A B} (m : L A) (k : A -> L B) : L B :=
  fun self w =>
    match m self w with
    | (Done a, self1, w1, ev1) =>
      match k a self1 w1 with
      | (r, self2, w2, ev2) => (r, self2, w2, ev1 ++ ev2)
      end
    | (Failed f, self1, w1, ev1) => (Failed f, self1, w1, ev1)
    end.

(** [try: m  except Exception: handler] *)
Definition try_except {A} (m : L A) (handler : Failure -> L A) : L A :=
  fun self w =>
    match m self w with
    | (Done a, self1, w1, ev1) => (Done a, self1, w1, ev1)
    | (Failed f, self1, w1, ev1) =>
      match handler f self1 w1 with
      | (r, self2, w2, ev2) => (r, self2, w2, ev1 ++ ev2)
      end
    end.

Notation "x <- m ;; k" := (then_ m (fun x => k))
  (at level 61, m at next level, right associativity).
Notation "m ;;; k" := (then_ m (fun _ => k))
  (at level 61, right associativity).

Definition log (level : Level) (message : Message) : L unit :=
  fun self w => (Done tt, self, w, [LvLog level message]).

(** A library call that returns nothing or raises. *)
Definition call (f : W -> option E * W) (event : LifeEvent) : L unit :=
  fun self w =>
    match f w with
    | (None, w') => (Done tt, self, w', [event])
    | (Some e, w') => (Failed (Library e), self, w', [event])
    end.

(** A library call that returns a value or raises. *)
Definition call_for {A} (f : W -> (E + A) * W) (event : LifeEvent) : L A :=
  fun self w =>
    match f w with
    | (inr a, w') => (Done a, self, w', [event])
    | (inl e, w') => (Failed (Library e), self, w', [event])
    end.

(** A library call outside any [try]. *)
Definition perform (f : W -> W) (event : LifeEvent) : L unit :=
  fun self w => (Done tt, self, f w, [event]).

Definition get_session : L (option (Channel W)) :=
  fun self w => (Done (_session self), self, w, []).

Definition assign_session (session : option (Channel W)) : L unit :=
  fun self w => (Done tt, set_session self session, w, []).

Definition session_closed (session : Channel W) : L bool :=
  fun self w => (Done (closed session w), self, w, []).

Definition _close_connection : L unit :=
  perform (sshc_close paramiko) LvConnectionClose ;;;
  log Info ConnectionClosed.

Definition _close_session : L unit :=
  current <- get_session ;;
  match current with
  | Some session =>
    is_down <- session_closed session ;;
    (if negb is_down
     then perform (channel_close paramiko session) LvChannelClose ;;;
          log Info ShellTerminated
     else done tt) ;;;
    assign_session None
  | None => done tt
  end.

Definition _open_connection (hostname : string) (kwargs : Kwargs) : L unit :=
  let port := kwargs_get kwargs "port" (_SSH_DEFAULT_PORT paramiko) in
  try_except
    (log Debug (Connecting hostname port) ;;;
     call (sshc_connect paramiko hostname kwargs) (LvConnect hostname kwargs) ;;;
     log Info (Connected hostname port))
    (fun f =>
       log Exception (ConnectFailed hostname port) ;;;
       fail f).

Definition _open_session : L unit :=
  try_except
    (log Debug OpeningShell ;;;
     transport <- call_for (sshc_get_transport paramiko) LvGetTransport ;;
     match transport with
     | None => fail AssertionError
     | Some transport =>
       session <- call_for (transport_open_session paramiko transport)
                           LvOpenSession ;;
       assign_session (Some session) ;;;
       call (channel_get_pty paramiko session) LvGetPty ;;;
       call (channel_invoke_shell paramiko session) LvInvokeShell ;;;
       log Info ShellOpened
     end)
    (fun f =>
       log Exception OpenShellFailed ;;;
       _close_session ;;;
       _close_connection ;;;
       fail f).

Definition close_shell : L unit :=
  _close_session ;;;
  _close_connection.

Definition open_shell (hostname : string) (kwargs : Kwargs) : L unit :=
  _open_connection hostname kwargs ;;;
  _open_session.

(** [with InteractiveSSHClient() as client:] ends by [close_shell]. *)
Definition __exit__ : L unit := close_shell.

(** Whether [self] holds a channel that does not report closed. *)
Definition holds_open_channel (self : InteractiveSSHClient W) (w : W) : bool :=
  match _session self with
  | Some session => negb (closed session w)
  | None => false
  end.

(** The world once the channel [self] holds, if open, has been closed. *)
Definition channel_shut_down (self : InteractiveSSHClient W) (w : W) : W :=
  match _session self with
  | Some session =>
    if closed session w then w else channel_close paramiko session w
  | None => w
  end.

(** What closing that channel leaves in the trace. *)
Definition shutdown_events (self : InteractiveSSHClient W) (w : W)
  : list LifeEvent :=
  if holds_open_channel self w
  then [LvChannelClose; LvLog Info ShellTerminated]
  else [].

End Lifecycle.

Arguments Done {E A} a.
Arguments Failed {E A} f.
Arguments AssertionError {E}.
Arguments ConnectionClosed {V}.
Arguments ShellTerminated {V}.
Arguments OpeningShell {V}.
Arguments ShellOpened {V}.
Arguments OpenShellFailed {V}.
Arguments LvGetTransport {V}.
Arguments LvOpenSession {V}.
Arguments LvGetPty {V}.
Arguments LvInvokeShell {V}.
Arguments LvChannelClose {V}.
Arguments LvConnectionClose {V}.
Arguments shutdown_events {W V} self w.
Arguments fail {W E V A} f _ _.
Arguments done {W E V A} a _ _.
Arguments log {W E V} level message _ _.
Arguments perform {W E V} f event _ _.
Arguments get_session {W E V} _ _.
Arguments assign_session {W E V} session _ _.
Arguments session_closed {W E V} session _ _.

(** ** A scripted transport

    The scripted channel of [Script] behind a connection that can be made
    to fail at each step of [open_shell]. *)

Module Stage.

Record Faults := mkFaults {
  refuse_connection : bool;
  no_transport : bool;
  refuse_session : bool;
  refuse_pty : bool;
  refuse_shell : bool
}.

Record World := mkWorld {
  net : Script.World;
  connection_up : bool;
  channel_shut : bool;
  faults : Faults
}.

Definition lift {A} (f : Script.World -> A * Script.World) (w : World)
  : A * World :=
  let (a, n) := f (net w) in
  (a, mkWorld n (connection_up w) (channel_shut w) (faults w)).

Definition now : World -> Q * World := lift Script.now.

Definition channel : Channel World :=
  mkChannel (fun w => channel_shut w || Script.closed (net w))
            (fun timeout => lift (Script.select timeout))
            (lift Script.recv_ready)
            (fun nbytes => lift (Script.recv nbytes))
            (fun data => lift (Script.send data)).

Definition set_connection (up : bool) (w : World) : World :=
  mkWorld (net w) up (channel_shut w) (faults w).

Definition shut (w : World) : World :=
  mkWorld (net w) (connection_up w) true (faults w).

Definition refusing (refuse : bool) (reason : string) (w : World)
  : option string * World :=
  (if refuse then Some reason else None, w).

Definition paramiko : Paramiko World string unit Z :=
  mkParamiko
    (fun _ _ w =>
       if refuse_connection (faults w)
       then (Some "connection refused"%string, w)
       else (None, set_connection true w))
    (fun w =>
       (inr (if connection_up w && negb (no_transport (faults w))
             then Some tt else None), w))
    (set_connection false)
    (fun _ w =>
       if refuse_session (faults w)
       then (inl "no session"%string, w)
       else (inr channel, w))
    (fun _ w => refusing (refuse_pty (faults w)) "no pty"%string w)
    (fun _ w => refusing (refuse_shell (faults w)) "no shell"%string w)
    (fun _ w => shut w)
    22%Z.

Definition no_faults : Faults := mkFaults false false false false false.

Definition world (f : Faults) (n : Script.World) : World :=
  mkWorld n false false f.

(** *** Scenarios *)

Definition shell_refused : Faults := mkFaults false false false false true.

Definition connection_refused : Faults :=
  mkFaults true false false false false.

(** Before [open_shell], and once the connection is made. *)
Definition offline : World := world no_faults Script.password_dialogue.

Definition online (f : Faults) : World :=
  mkWorld Script.password_dialogue true false f.

(** A fresh client, and one that holds the scripted channel. *)
Definition fresh : InteractiveSSHClient World := __init__ World.

Definition attached : InteractiveSSHClient World :=
  set_session fresh (Some channel).

Definition port_2222 : Kwargs Z := [("port"%string, 2222%Z)].

End Stage.

(** ** UTF-8: a character split between two reads *)

Section Utf8Facts.

Local Open Scope N_scope.

(** *** Bit operations as arithmetic *)

Lemma land_shiftl_small a n l : l < 2 ^ n -> N.land (N.shiftl a n) l = 0.
Proof.
  intros Hl. apply N.bits_inj. intros m. rewrite N.land_spec, N.bits_0.
  destruct (N.lt_ge_cases m n) as [Hm | Hm].
  - rewrite N.shiftl_spec_low by exact Hm. reflexivity.
  - assert (Hf : N.testbit l m = false).
    { apply N.testbit_false. rewrite N.div_small; [reflexivity|].
      apply N.lt_le_trans with (2 ^ n); [exact Hl|].
      apply N.pow_le_mono_r; lia. }
    rewrite Hf. apply Bool.andb_false_r.
Qed.

Lemma lor_shiftl_add a n l : l < 2 ^ n -> N.lor (N.shiftl a n) l = a * 2 ^ n + l.
Proof.
  intros Hl. pose proof (@land_shiftl_small a n l Hl) as H0.
  rewrite <- N.lxor_lor by exact H0.
  rewrite <- N.add_nocarry_lxor by exact H0.
  rewrite N.shiftl_mul_pow2. reflexivity.
Qed.

Lemma to_N_byte_of_N n : n < 256 -> Byte.to_N (byte_of_N n) = n.
Proof.
  intros Hn. unfold byte_of_N. destruct (Byte.of_N n) as [b|] eqn:E.
  - apply Byte.to_of_N. exact E.
  - apply Byte.of_N_None_iff in E. lia.
Qed.

Lemma low6_mod x : low6 x = x mod 64.
Proof. unfold low6. change 0x3F with (N.ones 6). rewrite N.land_ones. reflexivity. Qed.

Lemma lor_high h n x : x < 2 ^ n -> N.lor (h * 2 ^ n) x = h * 2 ^ n + x.
Proof.
  intros Hx. rewrite <- (@lor_shiftl_add h n x Hx), N.shiftl_mul_pow2. reflexivity.
Qed.

Lemma land_low h n x : x < 2 ^ n -> N.land (h * 2 ^ n + x) (N.ones n) = x.
Proof.
  intros Hx. rewrite N.land_ones, N.add_comm, N.Div0.mod_add.
  apply N.mod_small. exact Hx.
Qed.

Lemma fields2 c :
  c < 0x800 ->
  exists q r, c = 64 * q + r /\ r < 64 /\ q < 32
              /\ N.shiftr c 6 = q /\ low6 c = r.
Proof.
  intros Hc. exists (c / 64), (c mod 64).
  rewrite low6_mod, N.shiftr_div_pow2. change (2 ^ 6) with 64.
  repeat split; zify; Z.to_euclidean_division_equations; lia.
Qed.

Lemma fields3 c :
  c < 0x10000 ->
  exists q r1 r0, c = 4096 * q + 64 * r1 + r0 /\ r0 < 64 /\ r1 < 64 /\ q < 16
              /\ N.shiftr c 12 = q /\ low6 (N.shiftr c 6) = r1 /\ low6 c = r0.
Proof.
  intros Hc. exists (c / 4096), ((c / 64) mod 64), (c mod 64).
  rewrite !low6_mod, !N.shiftr_div_pow2.
  change (2 ^ 6) with 64. change (2 ^ 12) with 4096.
  repeat split; zify; Z.to_euclidean_division_equations; lia.
Qed.

Lemma fields4 c :
  c < 0x110000 ->
  exists q r2 r1 r0,
    c = 262144 * q + 4096 * r2 + 64 * r1 + r0
    /\ r0 < 64 /\ r1 < 64 /\ r2 < 64 /\ q < 5
    /\ N.land (N.shiftr c 18) 7 = q /\ low6 (N.shiftr c 12) = r2
    /\ low6 (N.shiftr c 6) = r1 /\ low6 c = r0.
Proof.
  intros Hc.
  exists (c / 262144), ((c / 4096) mod 64), ((c / 64) mod 64), (c mod 64).
  rewrite !low6_mod, !N.shiftr_div_pow2. change 7 with (N.ones 3).
  rewrite N.land_ones.
  change (2 ^ 6) with 64. change (2 ^ 12) with 4096.
  change (2 ^ 18) with 262144. change (2 ^ 3) with 8.
  repeat split; zify; Z.to_euclidean_division_equations; lia.
Qed.

(** *** The scanner on well-formed sequences *)

Ltac decide_tests :=
  repeat match goal with
         | |- context [(?a <? ?b)%N] =>
           destruct (N.ltb_spec a b); try lia
         | |- context [(?a <=? ?b)%N] =>
           destruct (N.leb_spec a b); try lia
         | |- context [(?a =? ?b)%N] =>
           destruct (N.eqb_spec a b); try lia
         end.

Lemma utf8_scan_2 b0 b1 :
  0xC2 <= Byte.to_N b0 < 0xE0 ->
  0x80 <= Byte.to_N b1 < 0xC0 ->
  utf8_scan [b0; b1]
  = [Char (N.lor (N.shiftl (N.land (Byte.to_N b0) 0x1F) 6) (low6 (Byte.to_N b1)))].
Proof.
  intros H0 H1. cbn [utf8_scan]. unfold is_continuation.
  generalize dependent (Byte.to_N b0). generalize dependent (Byte.to_N b1).
  intros ch2 H1 ch H0. decide_tests. reflexivity.
Qed.

Lemma utf8_scan_3 b0 b1 b2 :
  0xE0 <= Byte.to_N b0 < 0xF0 ->
  0x80 <= Byte.to_N b1 < 0xC0 ->
  0x80 <= Byte.to_N b2 < 0xC0 ->
  (Byte.to_N b0 = 0xE0 -> 0xA0 <= Byte.to_N b1) ->
  (Byte.to_N b0 = 0xED -> Byte.to_N b1 < 0xA0) ->
  utf8_scan [b0; b1; b2]
  = [Char (N.lor (N.shiftl (N.land (Byte.to_N b0) 0x0F) 12)
             (N.lor (N.shiftl (low6 (Byte.to_N b1)) 6) (low6 (Byte.to_N b2))))].
Proof.
  intros H0 H1 H2 Hlow Hsur. cbn [utf8_scan]. unfold is_continuation.
  generalize dependent (Byte.to_N b0). generalize dependent (Byte.to_N b1).
  generalize dependent (Byte.to_N b2).
  intros ch3 H2 ch2 H1 ch H0 Hlow Hsur. decide_tests; reflexivity.
Qed.

Lemma utf8_scan_4 b0 b1 b2 b3 :
  0xF0 <= Byte.to_N b0 < 0xF5 ->
  0x80 <= Byte.to_N b1 < 0xC0 ->
  0x80 <= Byte.to_N b2 < 0xC0 ->
  0x80 <= Byte.to_N b3 < 0xC0 ->
  (Byte.to_N b0 = 0xF0 -> 0x90 <= Byte.to_N b1) ->
  (Byte.to_N b0 = 0xF4 -> Byte.to_N b1 < 0x90) ->
  utf8_scan [b0; b1; b2; b3]
  = [Char (N.lor (N.shiftl (N.land (Byte.to_N b0) 0x07) 18)
             (N.lor (N.shiftl (low6 (Byte.to_N b1)) 12)
                (N.lor (N.shiftl (low6 (Byte.to_N b2)) 6)
                       (low6 (Byte.to_N b3)))))].
Proof.
  intros H0 H1 H2 H3 Hlow Hhigh. cbn [utf8_scan]. unfold is_continuation.
  generalize dependent (Byte.to_N b0). generalize dependent (Byte.to_N b1).
  generalize dependent (Byte.to_N b2). generalize dependent (Byte.to_N b3).
  intros ch4 H3 ch3 H2 ch2 H1 ch H0 Hlow Hhigh. decide_tests; reflexivity.
Qed.

Lemma high_byte h n x k :
  h * 2 ^ n = k -> x < 2 ^ n -> k + x < 256 ->
  Byte.to_N (byte_of_N (N.lor k x)) = k + x.
Proof.
  intros <- Hx Hlt. rewrite lor_high by exact Hx.
  apply to_N_byte_of_N. exact Hlt.
Qed.

Lemma low_bits h n x k m :
  h * 2 ^ n = k -> N.ones n = m -> x < 2 ^ n -> N.land (k + x) m = x.
Proof. intros <- <- Hx. apply land_low. exact Hx. Qed.

Lemma utf8_round_trip c :
  is_scalar_value c = true -> utf8_scan (utf8_encode_codepoint c) = [Char c].
Proof.
  intros Hs. unfold is_scalar_value in Hs. unfold utf8_encode_codepoint.
  destruct (N.ltb_spec c 0x80) as [H1|H1].
  { cbn [utf8_scan]. rewrite to_N_byte_of_N by lia.
    destruct (N.ltb_spec c 0x80); [reflexivity|lia]. }
  destruct (N.ltb_spec c 0x800) as [H2|H2].
  { destruct (@fields2 c H2) as (q & r & Hc & Hr & Hq & -> & ->).
    assert (B0 : Byte.to_N (byte_of_N (N.lor 0xC0 q)) = 192 + q)
      by (apply (@high_byte 3 6); [reflexivity|cbn; lia|lia]).
    assert (B1 : Byte.to_N (byte_of_N (N.lor 0x80 r)) = 128 + r)
      by (apply (@high_byte 2 6); [reflexivity|cbn; lia|lia]).
    rewrite utf8_scan_2 by (rewrite ?B0, ?B1; lia).
    rewrite B0, B1. unfold low6.
    rewrite (@low_bits 6 5 q 192 0x1F), (@low_bits 2 6 r 128 0x3F)
      by (reflexivity || (cbn; lia)).
    rewrite lor_shiftl_add by (cbn; lia). f_equal. f_equal. cbn. lia. }
  destruct (N.ltb_spec c 0x10000) as [H3|H3].
  { destruct (@fields3 c H3) as (q & r1 & r0 & Hc & Hr0 & Hr1 & Hq & -> & -> & ->).
    assert (Hsur : ~ (0xD800 <= c < 0xE000)).
    { intros [Ha Hb]. apply N.ltb_ge in Ha. apply N.leb_gt in Hb.
      rewrite Ha, Hb in Hs. discriminate. }
    assert (B0 : Byte.to_N (byte_of_N (N.lor 0xE0 q)) = 224 + q)
      by (apply (@high_byte 14 4); [reflexivity|cbn; lia|lia]).
    assert (B1 : Byte.to_N (byte_of_N (N.lor 0x80 r1)) = 128 + r1)
      by (apply (@high_byte 2 6); [reflexivity|cbn; lia|lia]).
    assert (B2 : Byte.to_N (byte_of_N (N.lor 0x80 r0)) = 128 + r0)
      by (apply (@high_byte 2 6); [reflexivity|cbn; lia|lia]).
    rewrite utf8_scan_3 by (rewrite ?B0, ?B1, ?B2; lia).
    rewrite B0, B1, B2. unfold low6.
    rewrite (@low_bits 14 4 q 224 0x0F), (@low_bits 2 6 r1 128 0x3F),
      (@low_bits 2 6 r0 128 0x3F) by (reflexivity || (cbn; lia)).
    rewrite (@lor_shiftl_add r1 6 r0) by (cbn; lia).
    rewrite lor_shiftl_add by (cbn; lia). f_equal. f_equal. cbn. lia. }
  assert (H4 : c < 0x110000).
  { destruct (N.ltb_spec c 0xD800); [lia|]. cbn [orb] in Hs.
    apply Bool.andb_true_iff in Hs. destruct Hs as [_ Hs].
    apply N.ltb_lt in Hs. exact Hs. }
  destruct (@fields4 c H4)
    as (q & r2 & r1 & r0 & Hc & Hr0 & Hr1 & Hr2 & Hq & -> & -> & -> & ->).
  assert (B0 : Byte.to_N (byte_of_N (N.lor 0xF0 q)) = 240 + q)
    by (apply (@high_byte 30 3); [reflexivity|cbn; lia|lia]).
  assert (B1 : Byte.to_N (byte_of_N (N.lor 0x80 r2)) = 128 + r2)
    by (apply (@high_byte 2 6); [reflexivity|cbn; lia|lia]).
  assert (B2 : Byte.to_N (byte_of_N (N.lor 0x80 r1)) = 128 + r1)
    by (apply (@high_byte 2 6); [reflexivity|cbn; lia|lia]).
  assert (B3 : Byte.to_N (byte_of_N (N.lor 0x80 r0)) = 128 + r0)
    by (apply (@high_byte 2 6); [reflexivity|cbn; lia|lia]).
  rewrite utf8_scan_4 by (rewrite ?B0, ?B1, ?B2, ?B3; lia).
  rewrite B0, B1, B2, B3. unfold low6.
  rewrite (@low_bits 30 3 q 240 0x07), (@low_bits 2 6 r2 128 0x3F),
    (@low_bits 2 6 r1 128 0x3F), (@low_bits 2 6 r0 128 0x3F)
    by (reflexivity || (cbn; lia)).
  rewrite (@lor_shiftl_add r1 6 r0) by (cbn; lia).
  rewrite (@lor_shiftl_add r2 12 (r1 * 2 ^ 6 + r0)) by (cbn; lia).
  rewrite lor_shiftl_add by (cbn; lia). f_equal. f_equal. cbn. lia.
Qed.

Lemma utf8_scan_truncated b0 rest :
  (0xC2 <= Byte.to_N b0 < 0xE0 /\ (List.length rest < 1)%nat)
  \/ (0xE0 <= Byte.to_N b0 < 0xF0 /\ (List.length rest < 2)%nat)
  \/ (0xF0 <= Byte.to_N b0 < 0xF5 /\ (List.length rest < 3)%nat) ->
  exists items, utf8_scan (b0 :: rest) = Malformed :: items.
Proof.
  intros H. cbn [utf8_scan]. generalize dependent (Byte.to_N b0). intros ch H.
  destruct (N.ltb_spec ch 0x80); [lia|].
  destruct (N.ltb_spec ch 0xC2); [lia|].
  destruct rest as [|b1 [|b2 [|b3 rest]]]; cbn [List.length] in H.
  - destruct (ch <? 0xE0), (ch <? 0xF0), (ch <? 0xF5); eauto.
  - destruct (N.ltb_spec ch 0xE0); [lia|].
    destruct (ch <? 0xF0), (ch <? 0xF5);
      repeat match goal with
             | |- context [if ?x then _ else _] => destruct x
             end; eauto.
  - destruct (N.ltb_spec ch 0xE0); [lia|].
    destruct (N.ltb_spec ch 0xF0); [lia|].
    destruct (ch <? 0xF5);
      repeat match goal with
             | |- context [if ?x then _ else _] => destruct x
             end; eauto.
  - lia.
Qed.

Lemma split_of_2 (A : Type) (x0 x1 : A) a b :
  [x0; x1] = a ++ b -> a <> [] -> b <> [] -> a = [x0].
Proof.
  intros H Ha Hb.
  destruct a as [|y0 [|y1 [|y2 a]]]; try congruence;
    destruct b; try congruence; inversion H; subst; auto.
Qed.

Lemma split_of_3 (A : Type) (x0 x1 x2 : A) a b :
  [x0; x1; x2] = a ++ b -> a <> [] -> b <> [] -> a = [x0] \/ a = [x0; x1].
Proof.
  intros H Ha Hb.
  destruct a as [|y0 [|y1 [|y2 [|y3 a]]]]; try congruence;
    destruct b; try congruence; try discriminate;
    inversion H; subst; auto.
Qed.

Lemma split_of_4 (A : Type) (x0 x1 x2 x3 : A) a b :
  [x0; x1; x2; x3] = a ++ b -> a <> [] -> b <> [] ->
  a = [x0] \/ a = [x0; x1] \/ a = [x0; x1; x2].
Proof.
  intros H Ha Hb.
  destruct a as [|y0 [|y1 [|y2 [|y3 [|y4 a]]]]]; try congruence;
    destruct b; try congruence; try discriminate;
    inversion H; subst; auto.
Qed.

Lemma utf8_encode_truncated c a b :
  is_scalar_value c = true ->
  utf8_encode_codepoint c = a ++ b -> a <> [] -> b <> [] ->
  exists items, utf8_scan a = Malformed :: items.
Proof.
  intros Hs. unfold is_scalar_value in Hs. unfold utf8_encode_codepoint.
  destruct (N.ltb_spec c 0x80) as [H1|H1].
  { intros H Ha Hb. exfalso.
    destruct a as [|y0 [|y1 a]]; try congruence;
      destruct b; try congruence; inversion H. }
  destruct (N.ltb_spec c 0x800) as [H2|H2].
  { destruct (@fields2 c H2) as (q & r & Hc & Hr & Hq & -> & ->).
    assert (B0 : Byte.to_N (byte_of_N (N.lor 0xC0 q)) = 192 + q)
      by (apply (@high_byte 3 6); [reflexivity|cbn; lia|lia]).
    intros H Ha Hb. rewrite (split_of_2 H Ha Hb).
    apply utf8_scan_truncated. rewrite B0. cbn [List.length]. lia. }
  destruct (N.ltb_spec c 0x10000) as [H3|H3].
  { destruct (@fields3 c H3) as (q & r1 & r0 & Hc & Hr0 & Hr1 & Hq & -> & -> & ->).
    assert (B0 : Byte.to_N (byte_of_N (N.lor 0xE0 q)) = 224 + q)
      by (apply (@high_byte 14 4); [reflexivity|cbn; lia|lia]).
    intros H Ha Hb.
    destruct (split_of_3 H Ha Hb) as [-> | ->];
      apply utf8_scan_truncated; rewrite B0; cbn [List.length]; lia. }
  assert (H4 : c < 0x110000).
  { destruct (N.ltb_spec c 0xD800); [lia|]. cbn [orb] in Hs.
    apply Bool.andb_true_iff in Hs. destruct Hs as [_ Hs].
    apply N.ltb_lt in Hs. exact Hs. }
  destruct (@fields4 c H4)
    as (q & r2 & r1 & r0 & Hc & Hr0 & Hr1 & Hr2 & Hq & -> & -> & -> & ->).
  assert (B0 : Byte.to_N (byte_of_N (N.lor 0xF0 q)) = 240 + q)
    by (apply (@high_byte 30 3); [reflexivity|cbn; lia|lia]).
  intros H Ha Hb.
  destruct (split_of_4 H Ha Hb) as [-> | [-> | ->]];
    apply utf8_scan_truncated; rewrite B0; cbn [List.length]; lia.
Qed.

(** A Unicode scalar value whose UTF-8 encoding is cut in two non-empty
    pieces: the first piece alone does not decode strictly, the two pieces
    together decode to exactly that character, under either handler. *)
Lemma utf8_split_character c a b :
  is_scalar_value c = true ->
  utf8_encode_codepoint c = a ++ b -> a <> [] -> b <> [] ->
  decode_strict utf8 a = None
  /\ decode_strict utf8 (a ++ b) = Some [c]
  /\ decode_replace utf8 (a ++ b) = [c].
Proof.
  intros Hs Hab Ha Hb. cbn [decode_strict decode_replace utf8].
  destruct (utf8_encode_truncated c Hs Hab Ha Hb) as [items ->].
  rewrite <- Hab, (utf8_round_trip c Hs). repeat split.
Qed.

(** *** Whole texts *)

Ltac settle_test :=
  match goal with
  | |- context [(?a <? ?b)%N] =>
    first [ rewrite (proj2 (N.ltb_lt a b)) by lia
          | rewrite (proj2 (N.ltb_ge a b)) by lia ]
  | |- context [(?a <=? ?b)%N] =>
    first [ rewrite (proj2 (N.leb_le a b)) by lia
          | rewrite (proj2 (N.leb_gt a b)) by lia ]
  | |- context [(?a =? ?b)%N] =>
    first [ rewrite (proj2 (N.eqb_eq a b)) by lia
          | rewrite (proj2 (N.eqb_neq a b)) by lia ]
  end.

Lemma utf8_scan_1_then b0 rest :
  Byte.to_N b0 < 0x80 ->
  utf8_scan (b0 :: rest) = Char (Byte.to_N b0) :: utf8_scan rest.
Proof.
  intros H0. cbn [utf8_scan].
  destruct (N.ltb_spec (Byte.to_N b0) 0x80); [reflexivity|lia].
Qed.

Lemma utf8_scan_2_then b0 b1 rest :
  0xC2 <= Byte.to_N b0 < 0xE0 ->
  0x80 <= Byte.to_N b1 < 0xC0 ->
  utf8_scan (b0 :: b1 :: rest)
  = Char (N.lor (N.shiftl (N.land (Byte.to_N b0) 0x1F) 6)
                (low6 (Byte.to_N b1)))
    :: utf8_scan rest.
Proof.
  intros H0 H1. cbn [utf8_scan]. unfold is_continuation.
  generalize dependent (Byte.to_N b0). generalize dependent (Byte.to_N b1).
  intros ch2 H1 ch H0.
  repeat (settle_test; cbv beta iota; cbn [andb orb negb]).
  decide_tests; reflexivity.
Qed.

Lemma utf8_scan_3_then b0 b1 b2 rest :
  0xE0 <= Byte.to_N b0 < 0xF0 ->
  0x80 <= Byte.to_N b1 < 0xC0 ->
  0x80 <= Byte.to_N b2 < 0xC0 ->
  (Byte.to_N b0 = 0xE0 -> 0xA0 <= Byte.to_N b1) ->
  (Byte.to_N b0 = 0xED -> Byte.to_N b1 < 0xA0) ->
  utf8_scan (b0 :: b1 :: b2 :: rest)
  = Char (N.lor (N.shiftl (N.land (Byte.to_N b0) 0x0F) 12)
            (N.lor (N.shiftl (low6 (Byte.to_N b1)) 6) (low6 (Byte.to_N b2))))
    :: utf8_scan rest.
Proof.
  intros H0 H1 H2 Hlow Hsur. cbn [utf8_scan]. unfold is_continuation.
  generalize dependent (Byte.to_N b0). generalize dependent (Byte.to_N b1).
  generalize dependent (Byte.to_N b2).
  intros ch3 H2 ch2 H1 ch H0 Hlow Hsur.
  repeat (settle_test; cbv beta iota; cbn [andb orb negb]).
  decide_tests; reflexivity.
Qed.

Lemma utf8_scan_4_then b0 b1 b2 b3 rest :
  0xF0 <= Byte.to_N b0 < 0xF5 ->
  0x80 <= Byte.to_N b1 < 0xC0 ->
  0x80 <= Byte.to_N b2 < 0xC0 ->
  0x80 <= Byte.to_N b3 < 0xC0 ->
  (Byte.to_N b0 = 0xF0 -> 0x90 <= Byte.to_N b1) ->
  (Byte.to_N b0 = 0xF4 -> Byte.to_N b1 < 0x90) ->
  utf8_scan (b0 :: b1 :: b2 :: b3 :: rest)
  = Char (N.lor (N.shiftl (N.land (Byte.to_N b0) 0x07) 18)
            (N.lor (N.shiftl (low6 (Byte.to_N b1)) 12)
               (N.lor (N.shiftl (low6 (Byte.to_N b2)) 6)
                      (low6 (Byte.to_N b3)))))
    :: utf8_scan rest.
Proof.
  intros H0 H1 H2 H3 Hlow Hhigh. cbn [utf8_scan]. unfold is_continuation.
  generalize dependent (Byte.to_N b0). generalize dependent (Byte.to_N b1).
  generalize dependent (Byte.to_N b2). generalize dependent (Byte.to_N b3).
  intros ch4 H3 ch3 H2 ch2 H1 ch H0 Hlow Hhigh.
  repeat (settle_test; cbv beta iota; cbn [andb orb negb]).
  decide_tests; reflexivity.
Qed.

Lemma utf8_scan_encoded c rest :
  is_scalar_value c = true ->
  utf8_scan (utf8_encode_codepoint c ++ rest) = Char c :: utf8_scan rest.
Proof.
  intros Hs. unfold is_scalar_value in Hs. unfold utf8_encode_codepoint.
  destruct (N.ltb_spec c 0x80) as [H1|H1].
  { cbn [app]. rewrite utf8_scan_1_then; rewrite to_N_byte_of_N by lia;
      [reflexivity|lia]. }
  destruct (N.ltb_spec c 0x800) as [H2|H2].
  { destruct (@fields2 c H2) as (q & r & Hc & Hr & Hq & -> & ->).
    assert (B0 : Byte.to_N (byte_of_N (N.lor 0xC0 q)) = 192 + q)
      by (apply (@high_byte 3 6); [reflexivity|cbn; lia|lia]).
    assert (B1 : Byte.to_N (byte_of_N (N.lor 0x80 r)) = 128 + r)
      by (apply (@high_byte 2 6); [reflexivity|cbn; lia|lia]).
    cbn [app]. rewrite utf8_scan_2_then by (rewrite ?B0, ?B1; lia).
    rewrite B0, B1. unfold low6.
    rewrite (@low_bits 6 5 q 192 0x1F), (@low_bits 2 6 r 128 0x3F)
      by (reflexivity || (cbn; lia)).
    rewrite lor_shiftl_add by (cbn; lia). f_equal. f_equal. cbn. lia. }
  destruct (N.ltb_spec c 0x10000) as [H3|H3].
  { destruct (@fields3 c H3)
      as (q & r1 & r0 & Hc & Hr0 & Hr1 & Hq & -> & -> & ->).
    assert (Hsur : ~ (0xD800 <= c < 0xE000)).
    { intros [Ha Hb]. apply N.ltb_ge in Ha. apply N.leb_gt in Hb.
      rewrite Ha, Hb in Hs. discriminate. }
    assert (B0 : Byte.to_N (byte_of_N (N.lor 0xE0 q)) = 224 + q)
      by (apply (@high_byte 14 4); [reflexivity|cbn; lia|lia]).
    assert (B1 : Byte.to_N (byte_of_N (N.lor 0x80 r1)) = 128 + r1)
      by (apply (@high_byte 2 6); [reflexivity|cbn; lia|lia]).
    assert (B2 : Byte.to_N (byte_of_N (N.lor 0x80 r0)) = 128 + r0)
      by (apply (@high_byte 2 6); [reflexivity|cbn; lia|lia]).
    cbn [app]. rewrite utf8_scan_3_then by (rewrite ?B0, ?B1, ?B2; lia).
    rewrite B0, B1, B2. unfold low6.
    rewrite (@low_bits 14 4 q 224 0x0F), (@low_bits 2 6 r1 128 0x3F),
      (@low_bits 2 6 r0 128 0x3F) by (reflexivity || (cbn; lia)).
    rewrite (@lor_shiftl_add r1 6 r0) by (cbn; lia).
    rewrite lor_shiftl_add by (cbn; lia). f_equal. f_equal. cbn. lia. }
  assert (H4 : c < 0x110000).
  { destruct (N.ltb_spec c 0xD800); [lia|]. cbn [orb] in Hs.
    apply Bool.andb_true_iff in Hs. destruct Hs as [_ Hs].
    apply N.ltb_lt in Hs. exact Hs. }
  destruct (@fields4 c H4)
    as (q & r2 & r1 & r0 & Hc & Hr0 & Hr1 & Hr2 & Hq & -> & -> & -> & ->).
  assert (B0 : Byte.to_N (byte_of_N (N.lor 0xF0 q)) = 240 + q)
    by (apply (@high_byte 30 3); [reflexivity|cbn; lia|lia]).
  assert (B1 : Byte.to_N (byte_of_N (N.lor 0x80 r2)) = 128 + r2)
    by (apply (@high_byte 2 6); [reflexivity|cbn; lia|lia]).
  assert (B2 : Byte.to_N (byte_of_N (N.lor 0x80 r1)) = 128 + r1)
    by (apply (@high_byte 2 6); [reflexivity|cbn; lia|lia]).
  assert (B3 : Byte.to_N (byte_of_N (N.lor 0x80 r0)) = 128 + r0)
    by (apply (@high_byte 2 6); [reflexivity|cbn; lia|lia]).
  cbn [app]. rewrite utf8_scan_4_then by (rewrite ?B0, ?B1, ?B2, ?B3; lia).
  rewrite B0, B1, B2, B3. unfold low6.
  rewrite (@low_bits 30 3 q 240 0x07), (@low_bits 2 6 r2 128 0x3F),
    (@low_bits 2 6 r1 128 0x3F), (@low_bits 2 6 r0 128 0x3F)
    by (reflexivity || (cbn; lia)).
  rewrite (@lor_shiftl_add r1 6 r0) by (cbn; lia).
  rewrite (@lor_shiftl_add r2 12 (r1 * 2 ^ 6 + r0)) by (cbn; lia).
  rewrite lor_shiftl_add by (cbn; lia). f_equal. f_equal. cbn. lia.
Qed.

Lemma utf8_scan_encode_then t rest :
  forallb is_scalar_value t = true ->
  utf8_scan (utf8_encode t ++ rest) = map Char t ++ utf8_scan rest.
Proof.
  induction t as [|c t IH]; [reflexivity|].
  cbn [forallb utf8_encode flat_map map app]. intros H.
  apply Bool.andb_true_iff in H. destruct H as [Hc Ht].
  rewrite <- app_assoc, (utf8_scan_encoded c _ Hc). f_equal.
  apply IH. exact Ht.
Qed.

Lemma strict_errors_chars_then t items :
  strict_errors (map Char t ++ items)
  = option_map (app t) (strict_errors items).
Proof.
  induction t as [|c t IH]; cbn [map app strict_errors].
  - destruct (strict_errors items); reflexivity.
  - rewrite IH. destruct (strict_errors items); reflexivity.
Qed.

Lemma replace_errors_chars t : replace_errors (map Char t) = t.
Proof.
  unfold replace_errors. rewrite map_map. apply map_id.
Qed.

(** A text of Unicode scalar values is encodable, to the UTF-8 forms of
    its code points in order. *)
Lemma utf8_encodes t :
  forallb is_scalar_value t = true -> encode utf8 t = Some (utf8_encode t).
Proof.
  intros Ht. cbn [encode utf8]. unfold utf8_encode_strict.
  rewrite Ht. reflexivity.
Qed.

(** A text that holds a surrogate is refused. *)
Lemma utf8_refuses t :
  forallb is_scalar_value t = false -> encode utf8 t = None.
Proof.
  intros Ht. cbn [encode utf8]. unfold utf8_encode_strict.
  rewrite Ht. reflexivity.
Qed.

(** X14: UTF-8 round trip between [send_text] and [_try_decode].  A text
    of Unicode scalar values is encodable, and the bytes that [send_text]
    writes for it are decoded by [_try_decode] to that same text; decoding
    them with the replace handler, as the final flush does, gives the same
    text too, with no replacement character. *)
Theorem try_decode_inverts_encode t :
  forallb is_scalar_value t = true ->
  exists data,
    encode utf8 t = Some data
    /\ _try_decode data utf8 = Some t
    /\ decode_replace utf8 data = t.
Proof.
  intros Ht. exists (utf8_encode t). split; [exact (utf8_encodes t Ht)|].
  unfold _try_decode. cbn [decode_strict decode_replace utf8].
  rewrite <- (app_nil_r (utf8_encode t)), (utf8_scan_encode_then _ _ Ht).
  cbn [utf8_scan]. rewrite app_nil_r. split.
  - rewrite <- (app_nil_r (map Char t)), strict_errors_chars_then.
    cbn. rewrite app_nil_r. reflexivity.
  - apply replace_errors_chars.
Qed.

(** X15: [_try_decode] waits for a character split between reads.  When
    the buffer holds the encoding of a text followed by a proper,
    non-empty beginning of the encoding of one more character, it returns
    [None]; once the remaining bytes of that character are appended it
    returns the text with that character, once. *)
Theorem try_decode_waits_for_split_character t c a b :
  forallb is_scalar_value t = true ->
  is_scalar_value c = true ->
  utf8_encode_codepoint c = a ++ b -> a <> [] -> b <> [] ->
  exists data,
    encode utf8 t = Some data
    /\ _try_decode (data ++ a) utf8 = None
    /\ _try_decode ((data ++ a) ++ b) utf8 = Some (t ++ [c]).
Proof.
  intros Ht Hc Hab Ha Hb. exists (utf8_encode t).
  split; [exact (utf8_encodes t Ht)|]. unfold _try_decode.
  cbn [decode_strict utf8]. split.
  - rewrite (utf8_scan_encode_then _ _ Ht), strict_errors_chars_then.
    destruct (utf8_encode_truncated c Hc Hab Ha Hb) as [items ->].
    reflexivity.
  - rewrite <- app_assoc, <- Hab, (utf8_scan_encode_then _ _ Ht),
      strict_errors_chars_then, (utf8_round_trip c Hc).
    reflexivity.
Qed.

End Utf8Facts.

(** ** Properties of the client *)

Section ClientProperties.

Variable W : Type.
Variable now : W -> Q * W.
Variable re_search : text -> text -> bool.

Implicit Types (self : InteractiveSSHClient W) (st : LoopState) (w : W).

Lemma valid_configuration_checks self :
  valid_configuration self ->
  (recv_nbytes self <=? 0)%Z = false /\ Qle_bool (recv_timeout self) 0 = false.
Proof.
  intros [Hn Ht]. split.
  - apply Z.leb_gt. exact Hn.
  - destruct (Qle_bool (recv_timeout self) 0) eqn:E; [|reflexivity].
    apply Qle_bool_iff in E. exfalso. apply (Qlt_not_le _ _ Ht E).
Qed.

(** *** The drain loop *)

Lemma drain_spec dfuel (session : Channel W) nbytes :
  forall buf w o w' evs,
    drain dfuel session nbytes buf w = (o, w', evs) ->
    Forall is_read evs
    /\ (forall e, o <> Raise e)
    /\ (forall buf', o = Ret buf' -> buf' = buf ++ received evs).
Proof.
  induction dfuel as [|dfuel IH]; intros buf w o w' evs H.
  - inversion H; subst. repeat split; [constructor | discriminate | discriminate].
  - cbn [drain] in H. unfold bind, channel_recv_ready, channel_recv in H.
    destruct (recv_ready session w) as [ready w1].
    destruct ready.
    + destruct (recv session nbytes w1) as [data w2].
      destruct (drain dfuel session nbytes (buf ++ data) w2)
        as [[o2 w3] evs2] eqn:E.
      destruct (IH _ _ _ _ _ E) as (Hr & Hx & Hb).
      assert (Hevs : Forall is_read
                       ([EvRecvReady true] ++ [EvRecv nbytes data] ++ evs2)).
      { repeat constructor. exact Hr. }
      destruct o2; inversion H; subst; (split; [exact Hevs|]);
        (split; [discriminate || (intros e0 He0; inversion He0; subst; exact (Hx _ eq_refl)) |]).
      * intros buf' Hb'. inversion Hb'; subst.
        rewrite (Hb _ eq_refl). cbn. rewrite <- app_assoc.
        reflexivity.
      * discriminate.
      * discriminate.
    + inversion H; subst. split; [repeat constructor|].
      split; [discriminate|]. intros buf' Hb'. inversion Hb'; subst.
      cbn. rewrite app_nil_r. reflexivity.
Qed.

(** *** The deadline discipline *)


(** *** Every pass takes one of the courses *)

Lemma recv_pass_course self ar pr dfuel st w o w' evs :
  recv_pass now re_search self ar pr dfuel st w = (o, w', evs) ->
  pass_course now re_search self ar pr dfuel st w o w' evs.
Proof.
  unfold recv_pass. intros H.
  destruct (_session self) as [session|] eqn:Hs;
    [|inversion H; subst; apply NoSession; exact Hs].
  unfold bind at 1 in H. unfold is_closed in H.
  destruct (closed session w) eqn:Hc;
    [inversion H; subst; eapply SessionClosed; eassumption|].
  unfold bind at 1 in H. unfold datetime_now in H.
  destruct (now w) as [t w1] eqn:Hnow.
  unfold bind at 1 in H. unfold _wait_recv_ready in H.
  fold (remaining self st t) in H.
  destruct (select session (Some (remaining self st t)) w1)
    as [ready w2] eqn:Hsel.
  destruct ready; cbn [negb] in H;
    [|inversion H; subst; eapply TimedOut; eassumption].
  unfold bind at 1 in H.
  destruct (drain dfuel session (recv_nbytes self) (recv_buffer st) w2)
    as [[od w3] reads] eqn:Hd.
  destruct (drain_spec _ _ _ _ _ Hd) as (_ & Hx & _).
  destruct od as [buf|e|];
    [|exfalso; exact (Hx e eq_refl)
     |inversion H; subst; eapply DrainStarved; eassumption].
  unfold _try_decode in H.
  destruct (decode_strict (encoding self) buf) as [decoded|] eqn:Hdec;
    [|inversion H; subst; rewrite app_nil_r;
      eapply Undecoded; eassumption].
  unfold bind at 1 in H.
  assert (Hn : notify self decoded w3 =
               (Ret tt, notified self decoded w3, notification self decoded)).
  { unfold notify, notified, notification.
    destruct (on_recv_partial_text self); reflexivity. }
  rewrite Hn in H. clear Hn.
  destruct (if_truthy (_find_pattern re_search (keys ar)
                                     (text_buffer st ++ decoded)))
    as [pattern|] eqn:Hp.
  - destruct (dict_get ar pattern) as [reply|] eqn:Hg.
    + unfold bind at 1 in H. unfold send_text in H. rewrite Hs in H.
      destruct (encode (encoding self) reply) as [data|] eqn:Henc.
      * unfold bind, channel_send, ret in H.
        destruct (send session data (notified self decoded w3))
          as [n w4] eqn:Hsend.
        destruct (now w4) as [t' w5] eqn:Hnow2.
        inversion H; subst. cbn [app].
        eapply Replied; eassumption.
      * unfold raise in H. inversion H; subst. rewrite app_nil_r.
        eapply ReplyRefused; eassumption.
    + unfold raise in H. inversion H; subst. rewrite app_nil_r.
      eapply ReplyMissing; eassumption.
  - destruct (if_truthy (_find_pattern re_search pr
                                       (text_buffer st ++ decoded)))
      as [prompt|] eqn:Hq;
      unfold ret in H; inversion H; subst; rewrite app_nil_r.
    + eapply Prompted; eassumption.
    + eapply Unmatched; eassumption.
Qed.

Lemma notify_run self chunk w :
  notify self chunk w
  = (Ret tt, notified self chunk w, notification self chunk).
Proof.
  unfold notify, notified, notification.
  destruct (on_recv_partial_text self); reflexivity.
Qed.

(** ... and every course is a run of [recv_pass]. *)
Lemma pass_course_recv_pass self ar pr dfuel st w o w' evs :
  pass_course now re_search self ar pr dfuel st w o w' evs ->
  recv_pass now re_search self ar pr dfuel st w = (o, w', evs).
Proof.
  intros Hc. unfold recv_pass, _try_decode, _wait_recv_ready.
  destruct Hc;
    repeat match goal with
           | H : _session self = _ |- _ => rewrite H
           end;
    unfold bind, is_closed, datetime_now, send_text, channel_send, ret, raise;
    fold (notify self);
    repeat match goal with
           | H : closed _ _ = _ |- _ => rewrite H; clear H
           | H : now _ = _ |- _ => rewrite H; clear H
           | |- context [max0 (recv_timeout self - (?t - wait_start_time st))] =>
             fold (remaining self st t)
           | H : select _ _ _ = _ |- _ => rewrite H; clear H; cbn [negb]
           | H : drain _ _ _ _ _ = _ |- _ => rewrite H; clear H
           | H : decode_strict _ _ = _ |- _ => rewrite H; clear H
           | |- context [notify self ?c ?w] => rewrite (notify_run self c w)
           | H : if_truthy _ = _ |- _ => rewrite H; clear H
           | H : dict_get _ _ = _ |- _ => rewrite H; clear H
           | H : _session self = _ |- _ => rewrite H; clear H
           | H : encode _ _ = _ |- _ => rewrite H; clear H
           | H : send _ _ _ = _ |- _ => rewrite H; clear H
           end;
    rewrite ?app_nil_r; reflexivity.
Qed.

(** *** Fuel is only a bound: a run that ends keeps its result when given
    more fuel *)

Lemma drain_more_fuel dfuel (session : Channel W) nbytes :
  forall buf w o w' evs dfuel',
    drain dfuel session nbytes buf w = (o, w', evs) ->
    o <> OutOfFuel ->
    (dfuel <= dfuel')%nat ->
    drain dfuel' session nbytes buf w = (o, w', evs).
Proof.
  induction dfuel as [|dfuel IH]; intros buf w o w' evs dfuel' H Ho Hle.
  - inversion H; subst. congruence.
  - destruct dfuel' as [|dfuel']; [lia|].
    cbn [drain] in *. unfold bind, channel_recv_ready, channel_recv in *.
    destruct (recv_ready session w) as [ready w1].
    destruct ready; [|exact H].
    destruct (recv session nbytes w1) as [data w2].
    destruct (drain dfuel session nbytes (buf ++ data) w2)
      as [[o2 w3] evs2] eqn:E.
    assert (Ho2 : o2 <> OutOfFuel).
    { destruct o2; inversion H; subst; congruence. }
    rewrite (IH _ _ _ _ _ dfuel' E Ho2) by lia. exact H.
Qed.

Lemma recv_pass_more_fuel self ar pr dfuel dfuel' st w o w' evs :
  recv_pass now re_search self ar pr dfuel st w = (o, w', evs) ->
  o <> OutOfFuel ->
  (dfuel <= dfuel')%nat ->
  recv_pass now re_search self ar pr dfuel' st w = (o, w', evs).
Proof.
  intros H Ho Hle. apply recv_pass_course in H.
  apply pass_course_recv_pass.
  destruct H; try congruence;
    try match goal with
        | Hd : drain _ _ _ _ _ = _ |- _ =>
          apply drain_more_fuel with (dfuel' := dfuel') in Hd;
            [|discriminate|exact Hle]
        end;
    econstructor; eassumption.
Qed.

Lemma recv_loop_more_fuel self ar pr dfuel dfuel' fuel :
  forall fuel' st w o w' evs,
    recv_loop now re_search self ar pr dfuel fuel st w = (o, w', evs) ->
    o <> OutOfFuel ->
    (dfuel <= dfuel')%nat ->
    (fuel <= fuel')%nat ->
    recv_loop now re_search self ar pr dfuel' fuel' st w = (o, w', evs).
Proof.
  induction fuel as [|fuel IH]; intros fuel' st w o w' evs H Ho Hd Hle.
  - inversion H; subst. congruence.
  - destruct fuel' as [|fuel']; [lia|].
    cbn [recv_loop] in *. unfold bind in *.
    destruct (recv_pass now re_search self ar pr dfuel st w)
      as [[oc w1] evs1] eqn:Hp.
    assert (Hoc : oc <> OutOfFuel).
    { destruct oc; inversion H; subst; congruence. }
    rewrite (recv_pass_more_fuel _ _ _ _ _ Hp Hoc Hd).
    destruct oc as [[st'|st'|r]|e|]; try exact H.
    destruct (recv_loop now re_search self ar pr dfuel fuel st' w1)
      as [[o2 w2] evs2] eqn:Hl.
    assert (Ho2 : o2 <> OutOfFuel) by (inversion H; subst; congruence).
    rewrite (IH fuel' _ _ _ _ _ Hl Ho2 Hd) by lia. exact H.
Qed.

Lemma recv_text_more_fuel self ar pr fuel fuel' w o w' evs :
  recv_text now re_search self ar pr fuel w = (o, w', evs) ->
  o <> OutOfFuel ->
  (fuel <= fuel')%nat ->
  recv_text now re_search self ar pr fuel' w = (o, w', evs).
Proof.
  unfold recv_text. intros H Ho Hle.
  destruct (recv_nbytes self <=? 0)%Z; [exact H|].
  destruct (Qle_bool (recv_timeout self) 0); [exact H|].
  unfold bind at 1. unfold bind at 1 in H.
  destruct (datetime_now now w) as [[ot w0] ev0].
  destruct ot as [t0|e|]; try exact H.
  unfold bind at 1. unfold bind at 1 in H.
  destruct (recv_loop now re_search self (or_default ar (auto_replies self))
              (or_default pr (prompts self)) fuel fuel (initial_state t0) w0)
    as [[ol w1] evs1] eqn:Hl.
  assert (Hol : ol <> OutOfFuel).
  { destruct ol; inversion H; subst; congruence. }
  rewrite (recv_loop_more_fuel _ _ _ _ _ Hl Hol Hle Hle). exact H.
Qed.

Lemma written_reads evs : Forall is_read evs -> written evs = [].
Proof.
  induction 1 as [|e evs He _ IH]; [reflexivity|].
  destruct e; try contradiction; exact IH.
Qed.

Lemma written_app evs1 evs2 : written (evs1 ++ evs2) = written evs1 ++ written evs2.
Proof. unfold written. apply flat_map_app. Qed.

Lemma written_notification self chunk : written (notification self chunk) = [].
Proof. unfold notification. destruct (on_recv_partial_text self); reflexivity. Qed.





Lemma recv_epilogue_events self st w o w' evs :
  recv_epilogue self st w = (o, w', evs) ->
  evs = [] \/ exists chunk, evs = [EvObserve chunk].
Proof.
  unfold recv_epilogue, bind, notify, ret. intros H.
  destruct (truthy (recv_buffer st));
    [destruct (on_recv_partial_text self)|];
    inversion H; subst; cbn; eauto.
Qed.


(** *** The loop as a sequence of passes *)

Lemma recv_loop_broke self ar pr dfuel fuel :
  forall st w stb w' evs,
    recv_loop now re_search self ar pr dfuel fuel st w
      = (Ret (Broke stb), w', evs) ->
    exists n st1 w1 evs1 evs2,
      recv_passes now re_search self ar pr dfuel n st w
        = (Ret (Some st1), w1, evs1)
      /\ recv_pass now re_search self ar pr dfuel st1 w1
          = (Ret (Break stb), w', evs2)
      /\ evs = evs1 ++ evs2.
Proof.
  induction fuel as [|fuel IH]; intros st w stb w' evs H;
    [discriminate|].
  cbn [recv_loop] in H. unfold bind in H.
  destruct (recv_pass now re_search self ar pr dfuel st w)
    as [[oc w1] evs1] eqn:Hp.
  destruct oc as [[st'|st'|r]|e|]; try discriminate.
  - destruct (recv_loop now re_search self ar pr dfuel fuel st' w1)
      as [[o2 w2] evs2] eqn:Hl.
    inversion H; subst.
    destruct (IH _ _ _ _ _ Hl) as (n & st1 & w3 & ev3 & ev4 & Hn & Hb & ->).
    exists (S n), st1, w3, (evs1 ++ ev3), ev4.
    cbn [recv_passes]. unfold bind. rewrite Hp, Hn, Hb, app_assoc.
    repeat split.
  - inversion H; subst. exists O, st, w, [], (evs1 ++ []).
    cbn [recv_passes]. unfold ret. rewrite Hp, app_nil_r. repeat split.
Qed.

Lemma recv_loop_after_passes self ar pr dfuel n :
  forall st w st1 w1 evs1 fuel,
    recv_passes now re_search self ar pr dfuel n st w
      = (Ret (Some st1), w1, evs1) ->
    recv_loop now re_search self ar pr dfuel (n + fuel) st w
    = (let '(o, w2, evs2) :=
           recv_loop now re_search self ar pr dfuel fuel st1 w1 in
       (o, w2, evs1 ++ evs2)).
Proof.
  induction n as [|n IH]; intros st w st1 w1 evs1 fuel H.
  - inversion H; subst. cbn [Nat.add app].
    destruct (recv_loop now re_search self ar pr dfuel fuel st1 w1)
      as [[o w2] evs2]. reflexivity.
  - cbn [recv_passes] in H. cbn [Nat.add recv_loop]. unfold bind in *.
    destruct (recv_pass now re_search self ar pr dfuel st w)
      as [[oc w2] evs2] eqn:Hp.
    destruct oc as [[st'|st'|r]|e|]; try discriminate.
    destruct (recv_passes now re_search self ar pr dfuel n st' w2)
      as [[o3 w3] evs3] eqn:Hn.
    inversion H; subst. rewrite (IH _ _ _ _ _ fuel Hn).
    destruct (recv_loop now re_search self ar pr dfuel fuel st1 w1)
      as [[o w4] evs4]. rewrite app_assoc. reflexivity.
Qed.

(** *** The invariant of the pass boundaries *)

Lemma received_app evs1 evs2 :
  received (evs1 ++ evs2) = received evs1 ++ received evs2.
Proof. unfold received. apply flat_map_app. Qed.

Lemma observed_app evs1 evs2 :
  observed (evs1 ++ evs2) = observed evs1 ++ observed evs2.
Proof. unfold observed. apply flat_map_app. Qed.

Lemma observed_reads evs : Forall is_read evs -> observed evs = [].
Proof.
  induction 1 as [|e evs He _ IH]; [reflexivity|].
  destruct e; try contradiction; exact IH.
Qed.

Lemma received_notification self chunk :
  received (notification self chunk) = [].
Proof.
  unfold notification. destruct (on_recv_partial_text self); reflexivity.
Qed.

Lemma observed_notification self chunk :
  on_recv_partial_text self <> None ->
  observed (notification self chunk) = [chunk].
Proof.
  unfold notification.
  destruct (on_recv_partial_text self); [reflexivity|congruence].
Qed.

Local Abbreviation invariant self :=
  (boundary_invariant (encoding self) (on_recv_partial_text self <> None)).

Lemma boundary_invariant_initial self t : invariant self (initial_state t) [].
Proof.
  exists []. unfold decoded_in_segments. cbn.
  repeat split; try constructor; congruence.
Qed.

Lemma decoded_segment_added self st evs0 reads buf decoded before after st' :
  invariant self st evs0 ->
  Forall is_read reads ->
  buf = recv_buffer st ++ received reads ->
  decode_strict (encoding self) buf = Some decoded ->
  received before = [] -> observed before = [] ->
  received after = [] -> observed after = [] ->
  recv_buffer st' = [] ->
  text_archived st' ++ text_buffer st'
    = (text_archived st ++ text_buffer st) ++ decoded ->
  invariant self st'
    (evs0 ++ before ++ reads ++ notification self decoded ++ after).
Proof.
  intros (segs & Hsegs & Hrecv & Htext & _ & Hobs)
         Hreads Hbuf Hdec Hb1 Hb2 Ha1 Ha2 Hrb Htxt.
  exists (segs ++ [(buf, decoded)]).
  rewrite !map_app, !concat_app. cbn [map List.concat fst snd].
  rewrite !app_nil_r. repeat split.
  - apply Forall_app. split; [exact Hsegs|]. repeat constructor. exact Hdec.
  - rewrite !received_app, Hrecv, Hb1, Ha1, received_notification, Hrb, Hbuf.
    cbn [app]. rewrite !app_nil_r, app_assoc. reflexivity.
  - rewrite Htxt, Htext. reflexivity.
  - rewrite Hrb. congruence.
  - intros Ho. rewrite !observed_app, (Hobs Ho), Hb2, Ha2,
      (observed_reads Hreads), (@observed_notification self decoded Ho).
    cbn [app]. reflexivity.
Qed.

Lemma pass_course_invariant self ar pr dfuel st w st' w' evs evs0 :
  pass_course now re_search self ar pr dfuel st w (Ret (Continue st')) w' evs ->
  invariant self st evs0 ->
  invariant self st' (evs0 ++ evs).
Proof.
  intros Hc Hinv. inversion Hc; subst;
    match goal with
    | Hd : drain _ _ _ _ _ = _ |- _ =>
      destruct (drain_spec _ _ _ _ _ Hd) as (Hreads & _ & Hbuf);
      specialize (Hbuf _ eq_refl)
    end.
  - destruct Hinv as (segs & Hsegs & Hrecv & Htext & _ & Hobs).
    exists segs. cbn [recv_buffer text_buffer text_archived].
    repeat split; try assumption.
    + rewrite !received_app, Hrecv, Hbuf. cbn [received flat_map app].
      rewrite app_assoc. reflexivity.
    + intros _. assumption.
    + intros Ho. rewrite !observed_app, (Hobs Ho), (observed_reads Hreads).
      cbn [observed flat_map app]. rewrite app_nil_r. reflexivity.
  - eapply decoded_segment_added; try eassumption; try reflexivity.
    cbn [text_archived text_buffer]. rewrite app_nil_r, app_assoc.
    reflexivity.
  - rewrite <- (app_nil_r (notification self decoded)).
    eapply decoded_segment_added; try eassumption; try reflexivity.
    cbn [text_archived text_buffer]. rewrite app_assoc. reflexivity.
Qed.

Lemma recv_passes_invariant self ar pr dfuel n :
  forall st w st' w' evs evs0,
    invariant self st evs0 ->
    recv_passes now re_search self ar pr dfuel n st w
      = (Ret (Some st'), w', evs) ->
    invariant self st' (evs0 ++ evs).
Proof.
  induction n as [|n IH]; intros st w st' w' evs evs0 Hinv H.
  - inversion H; subst. rewrite app_nil_r. exact Hinv.
  - cbn [recv_passes] in H. unfold bind in H.
    destruct (recv_pass now re_search self ar pr dfuel st w)
      as [[oc w1] evs1] eqn:Hp.
    destruct oc as [[st1|st1|r]|e|]; try discriminate.
    destruct (recv_passes now re_search self ar pr dfuel n st1 w1)
      as [[o2 w2] evs2] eqn:Hn.
    inversion H; subst. rewrite app_assoc.
    eapply IH; [|exact Hn].
    eapply pass_course_invariant; [|exact Hinv].
    apply recv_pass_course. exact Hp.
Qed.

(** X16: between two passes of the loop of [recv_text], that is after any
    number [n] of passes that each continued, starting from the state
    [recv_text] enters the loop with: the bytes received so far are a
    sequence of pieces that each decoded strictly, followed by exactly
    [recv_buffer]; [text_archived + text_buffer] is the concatenation of
    the texts of those pieces; a non-empty [recv_buffer] does not decode
    strictly; and a configured observer has been given exactly those
    texts.  The state a pass leaves by [break] is not covered: there
    [text_archived + text_buffer] counts [text_buffer] twice. *)
Theorem invariant_between_passes self ar pr dfuel n t0 w st w' evs :
  recv_passes now re_search self ar pr dfuel n (initial_state t0) w
    = (Ret (Some st), w', evs) ->
  boundary_invariant (encoding self) (on_recv_partial_text self <> None)
                     st evs.
Proof.
  intros H.
  pose proof (boundary_invariant_initial self t0) as Hstart.
  apply (recv_passes_invariant _ _ _ _ _ _ Hstart H).
Qed.

(** *** Leaving the loop by [break] *)

Lemma break_is_close_or_timeout self ar pr dfuel st w stb w' evs :
  recv_pass now re_search self ar pr dfuel st w = (Ret (Break stb), w', evs) ->
  stb = archive_on_break st
  /\ (_session self = None
      \/ (exists session,
            _session self = Some session /\ closed session w = true)
      \/ (exists t, evs = [EvNow t; EvSelect (Some (remaining self st t)) false])).
Proof.
  intros H. apply recv_pass_course in H. inversion H; subst;
    (split; [reflexivity|]); eauto.
Qed.

(** What a [break] leaves behind.  [text_archived] then already holds
    every text decoded in the call, and [text_buffer], which is its tail,
    has not been emptied: the final [return text_archived + text_buffer +
    text_broken] therefore repeats the part of the text that no auto-reply
    had archived. *)
Lemma break_keeps_text_buffer self ar pr dfuel fuel t0 w st w' evs :
  recv_loop now re_search self ar pr dfuel fuel (initial_state t0) w
    = (Ret (Broke st), w', evs) ->
  exists segments earlier,
    decoded_in_segments (encoding self) segments
    /\ received evs = List.concat (map fst segments) ++ recv_buffer st
    /\ text_archived st = List.concat (map snd segments)
    /\ text_archived st = earlier ++ text_buffer st.
Proof.
  intros Hl.
  destruct (recv_loop_broke _ _ _ _ _ _ _ Hl)
    as (n & st1 & w1 & evs1 & evs2 & Hn & Hb & ->).
  destruct (break_is_close_or_timeout _ _ _ _ _ _ Hb) as [-> Hwhy].
  apply (recv_passes_invariant _ _ _ _ _ _
           (boundary_invariant_initial self _)) in Hn.
  cbn [app] in Hn.
  destruct Hn as (segs & Hsegs & Hrecv & Htext & _ & _).
  exists segs, (text_archived st1).
  cbn [archive_on_break recv_buffer text_archived text_buffer].
  repeat split; try assumption.
  rewrite received_app, Hrecv.
  assert (Hnone : received evs2 = []).
  { apply recv_pass_course in Hb. inversion Hb; subst; reflexivity. }
  rewrite Hnone, app_nil_r. reflexivity.
Qed.

(** C4: when the loop of [recv_text] is left by [break] (the session is
    absent or closed, or [select] timed out) in a state [st] whose
    [recv_buffer] is not empty, those bytes do not decode strictly, and
    [recv_text] returns [text_archived + text_buffer] followed by their
    decoding under the replace handler, with no prompt; the observer, if
    one is configured, is called once more, with exactly that lenient
    decoding, and nothing else happens after the loop. *)
Theorem recv_text_flushes_undecoded_remainder self ar pr fuel w st w1 evs1 :
  valid_configuration self ->
  recv_loop now re_search self
    (or_default ar (auto_replies self)) (or_default pr (prompts self))
    fuel fuel (initial_state (fst (now w))) (snd (now w))
    = (Ret (Broke st), w1, evs1) ->
  recv_buffer st <> [] ->
  decode_strict (encoding self) (recv_buffer st) = None
  /\ recv_text now re_search self ar pr fuel w =
     (Ret ((text_archived st ++ text_buffer st)
             ++ decode_replace (encoding self) (recv_buffer st), None),
      notified self (decode_replace (encoding self) (recv_buffer st)) w1,
      EvNow (fst (now w)) :: evs1
        ++ notification self (decode_replace (encoding self) (recv_buffer st))).
Proof.
  intros Hv Hl Hne. split.
  - destruct (recv_loop_broke _ _ _ _ _ _ _ Hl)
      as (n & st1 & w2 & ev1 & ev2 & Hn & Hb & _).
    apply break_is_close_or_timeout in Hb. destruct Hb as [-> _].
    apply (recv_passes_invariant _ _ _ _ _ _
           (boundary_invariant_initial self _)) in Hn.
    destruct Hn as (segs & _ & _ & _ & Hnone & _).
    apply Hnone. exact Hne.
  - destruct (valid_configuration_checks Hv) as [En Et].
    unfold recv_text. rewrite En, Et.
    unfold bind at 1. unfold datetime_now.
    destruct (now w) as [t0 w0]. cbn [fst snd] in *.
    unfold bind at 1. rewrite Hl.
    unfold recv_epilogue, bind, notify, notified, notification, ret.
    destruct (recv_buffer st) as [|b rest] eqn:Hrb; [congruence|].
    cbn [truthy].
    destruct (on_recv_partial_text self); cbn [app]; rewrite ?app_nil_r;
      reflexivity.
Qed.

(** C6: a configuration with [recv_nbytes <= 0] or [recv_timeout <= 0]
    makes [recv_text] raise [ValueError] at once: the world is untouched
    and no event (clock reading, poll, read, write, observer call) has
    happened. *)
Theorem recv_text_rejects_bad_configuration
    self auto_replies prompts fuel w :
  (recv_nbytes self <= 0)%Z \/ recv_timeout self <= 0 ->
  exists msg,
    recv_text now re_search self auto_replies prompts fuel w
    = (Raise (ValueError msg), w, []).
Proof.
  intros H. unfold recv_text.
  destruct (recv_nbytes self <=? 0)%Z eqn:En.
  - eexists. reflexivity.
  - destruct H as [H | H].
    + apply Z.leb_le in H. congruence.
    + apply Qle_bool_iff in H. rewrite H. eexists. reflexivity.
Qed.

(** The first pass of the loop when the session is absent or closed. *)
Lemma recv_loop_breaks_at_once self ar pr dfuel fuel st w :
  match _session self with
  | None => True
  | Some session => closed session w = true
  end ->
  recv_loop now re_search self ar pr dfuel (S fuel) st w =
    (Ret (Broke (archive_on_break st)), w, []).
Proof.
  intros H. cbn [recv_loop]. unfold bind, recv_pass.
  destruct (_session self) as [session|].
  - unfold bind, is_closed. rewrite H. reflexivity.
  - reflexivity.
Qed.

Lemma recv_text_breaks_at_once self ar pr fuel w :
  valid_configuration self ->
  match _session self with
  | None => True
  | Some session => closed session (snd (now w)) = true
  end ->
  recv_text now re_search self ar pr (S fuel) w =
    (Ret ([], None), snd (now w), [EvNow (fst (now w))]).
Proof.
  intros Hv H. destruct (valid_configuration_checks Hv) as [En Et].
  unfold recv_text. rewrite En, Et.
  unfold bind at 1. unfold datetime_now. destruct (now w) as [t w1]. cbn [fst snd] in *.
  unfold bind. rewrite recv_loop_breaks_at_once by exact H.
  reflexivity.
Qed.

(** C7: with a valid configuration (so that the loop is entered), a
    channel that reports closed when the first pass looks at it, before
    any data was read, makes [recv_text] return the empty text and no
    prompt; nothing is raised, and the only event is the clock reading that
    starts the call. *)
Theorem recv_text_on_closed_channel
    self session auto_replies prompts fuel w :
  valid_configuration self ->
  _session self = Some session ->
  closed session (snd (now w)) = true ->
  recv_text now re_search self auto_replies prompts (S fuel) w =
    (Ret ([], None), snd (now w), [EvNow (fst (now w))]).
Proof.
  intros Hv Hs Hc. apply recv_text_breaks_at_once; [exact Hv|].
  rewrite Hs. exact Hc.
Qed.

(** C10: with a valid configuration and no session handle ([_session] is
    [None], as [__init__] leaves it), [recv_text] returns the empty text and
    no prompt having done nothing but read the clock: no channel operation,
    no observer call.  [send_text] raises [RuntimeError("Not connected.")]
    in the same state. *)
Theorem recv_text_without_session
    self auto_replies prompts fuel w :
  valid_configuration self ->
  _session self = None ->
  recv_text now re_search self auto_replies prompts (S fuel) w =
    (Ret ([], None), snd (now w), [EvNow (fst (now w))])
  /\ forall txt,
       send_text self txt w = (Raise (RuntimeError "Not connected."), w, []).
Proof.
  intros Hv Hs. split.
  - apply recv_text_breaks_at_once; [exact Hv|]. rewrite Hs. exact I.
  - intros txt. unfold send_text. rewrite Hs. reflexivity.
Qed.

(** C8, as the code has it: [send_text] raises "Not connected." exactly
    when the client holds no channel ([self._session is None]).  When it
    holds one, whether or not that channel reports closed, the text is
    encoded with the configured encoding first: a text the codec refuses
    raises [UnicodeEncodeError] with the world untouched and nothing
    written; otherwise there is exactly one write, of the encoded bytes,
    and the result is the count that write reported. *)
Theorem send_text_spec self txt w :
  ((exists w' evs,
      send_text self txt w = (Raise (RuntimeError "Not connected."), w', evs))
   <-> _session self = None)
  /\ (forall session,
        _session self = Some session ->
        match encode (encoding self) txt with
        | None => send_text self txt w = (Raise (UnicodeEncodeError txt), w, [])
        | Some data =>
          send_text self txt w =
            (Ret (fst (send session data w)),
             snd (send session data w),
             [EvSend data (fst (send session data w))])
        end).
Proof.
  unfold send_text. split; [split|].
  - intros (w' & evs & H).
    destruct (_session self) as [session|]; [|reflexivity].
    destruct (encode (encoding self) txt) as [data|]; [|discriminate].
    unfold channel_send in H. destruct (send session data w). discriminate.
  - intros ->. exists w, []. reflexivity.
  - intros session ->.
    destruct (encode (encoding self) txt) as [data|]; [|reflexivity].
    unfold channel_send. destruct (send session data w). reflexivity.
Qed.

(** *** Classification order *)


(** A pass returns a prompt only when the auto-reply classification of
    the same text gave nothing truthy; such a pass writes nothing. *)
Lemma prompt_return_means_no_auto_reply self ar pr dfuel st w r w' evs :
  recv_pass now re_search self ar pr dfuel st w = (Ret (Return r), w', evs) ->
  exists decoded prompt,
    r = (text_archived st ++ text_buffer st ++ decoded, Some prompt)
    /\ if_truthy (_find_pattern re_search (keys ar)
                                (text_buffer st ++ decoded)) = None
    /\ _find_pattern re_search pr (text_buffer st ++ decoded) = Some prompt
    /\ written evs = [].
Proof.
  intros H. apply recv_pass_course in H. inversion H; subst.
  match goal with
  | Hd : drain _ _ _ _ _ = _ |- _ =>
    destruct (drain_spec _ _ _ _ _ Hd) as (Hreads & _ & _)
  end.
  exists decoded, prompt. repeat split; try assumption.
  - unfold if_truthy in *.
    destruct (_find_pattern re_search pr (text_buffer st ++ decoded))
      as [[|c p]|]; try discriminate. congruence.
  - cbn. rewrite written_app, written_notification, app_nil_r.
    apply written_reads. exact Hreads.
Qed.

(** When the first auto-reply pattern that matches is not the empty
    string and its reply is encodable, the pass replies and continues
    whatever the prompts are: the text is archived, the text buffer
    emptied, the deadline reference reset, and exactly the reply is
    written. *)
Lemma auto_reply_precedes_prompt self ar pr dfuel st w o w' evs
      session t w1 w2 buf w3 reads decoded c pattern :
  recv_pass now re_search self ar pr dfuel st w = (o, w', evs) ->
  _session self = Some session ->
  closed session w = false ->
  now w = (t, w1) ->
  select session (Some (remaining self st t)) w1 = (true, w2) ->
  drain dfuel session (recv_nbytes self) (recv_buffer st) w2
    = (Ret buf, w3, reads) ->
  decode_strict (encoding self) buf = Some decoded ->
  _find_pattern re_search (keys ar) (text_buffer st ++ decoded)
    = Some (c :: pattern) ->
  forall reply data,
    dict_get ar (c :: pattern) = Some reply ->
    encode (encoding self) reply = Some data ->
    exists t',
      o = Ret (Continue (mkLoop t' [] []
                   (text_archived st ++ (text_buffer st ++ decoded))))
      /\ written evs = [data].
Proof.
  intros H Hs Hc Hnow Hsel Hd Hdec Hfind reply data Hreply Henc.
  destruct (drain_spec _ _ _ _ _ Hd) as (Hreads & _ & _).
  destruct (send session data (notified self decoded w3))
    as [n w4] eqn:Hsend.
  destruct (now w4) as [t' w5] eqn:Hnow2.
  assert (Hp : if_truthy (_find_pattern re_search (keys ar)
                            (text_buffer st ++ decoded)) = Some (c :: pattern))
    by (rewrite Hfind; reflexivity).
  pose proof (Replied now re_search self ar pr dfuel st w
                      Hs Hc Hnow Hsel Hd Hdec Hp Hreply Henc Hsend Hnow2)
    as Hcourse.
  apply pass_course_recv_pass in Hcourse. rewrite Hcourse in H.
  inversion H; subst. exists t'. split; [reflexivity|].
  cbn. rewrite !written_app, written_notification, (written_reads Hreads).
  reflexivity.
Qed.

(** *** What the call as a whole does *)

Lemma find_pattern_sound patterns txt pattern :
  _find_pattern re_search patterns txt = Some pattern ->
  In pattern patterns /\ re_search pattern txt = true.
Proof.
  induction patterns as [|p ps IH]; cbn [_find_pattern]; [discriminate|].
  destruct (re_search p txt) eqn:Hp.
  - intros H. inversion H; subst. split; [left; reflexivity|exact Hp].
  - intros H. destruct (IH H) as [Hin Hm]. split; [right; exact Hin|exact Hm].
Qed.

Lemma if_truthy_Some (x : option text) p :
  if_truthy x = Some p -> x = Some p /\ p <> [].
Proof.
  destruct x as [[|c q]|]; cbn; try discriminate.
  intros H. inversion H; subst. split; [reflexivity|discriminate].
Qed.

Lemma dict_get_In (d : Dict) k v : dict_get d k = Some v -> In (k, v) d.
Proof.
  induction d as [|[k' v'] d IH]; cbn [dict_get]; [discriminate|].
  destruct (text_eq_dec k' k) as [->|Hne].
  - intros H. inversion H; subst. left. reflexivity.
  - intros H. right. apply IH. exact H.
Qed.

(** X8: [_find_pattern] returns the first pattern, in the order of the
    collection, that [re.search] finds in the text: every pattern before it
    fails to match; and it returns [None] exactly when no pattern
    matches. *)
Theorem find_pattern_first_match patterns txt :
  match _find_pattern re_search patterns txt with
  | Some pattern =>
    exists before after,
      patterns = before ++ pattern :: after
      /\ re_search pattern txt = true
      /\ Forall (fun p => re_search p txt = false) before
  | None => Forall (fun p => re_search p txt = false) patterns
  end.
Proof.
  induction patterns as [|p ps IH]; cbn [_find_pattern]; [constructor|].
  destruct (re_search p txt) eqn:Hp.
  - exists [], ps. split; [reflexivity|]. split; [exact Hp|constructor].
  - destruct (_find_pattern re_search ps txt) as [q|].
    + destruct IH as (before & after & -> & Hq & Hbefore).
      exists (p :: before), after.
      split; [reflexivity|]. split; [exact Hq|].
      constructor; assumption.
    + constructor; assumption.
Qed.





(** Lifting a property of the events of every pass to the whole call. *)
Lemma recv_loop_events (P : Event -> Prop) self ar pr dfuel :
  (forall st w o w' evs,
      recv_pass now re_search self ar pr dfuel st w = (o, w', evs) ->
      Forall P evs) ->
  forall fuel st w o w' evs,
    recv_loop now re_search self ar pr dfuel fuel st w = (o, w', evs) ->
    Forall P evs.
Proof.
  intros Hpass. induction fuel as [|fuel IH]; intros st w o w' evs H.
  - inversion H; subst. constructor.
  - cbn [recv_loop] in H. unfold bind in H.
    destruct (recv_pass now re_search self ar pr dfuel st w)
      as [[oc w1] evs1] eqn:Hp.
    pose proof (Hpass _ _ _ _ _ Hp) as H1.
    destruct oc as [[st'|st'|r]|e|].
    + destruct (recv_loop now re_search self ar pr dfuel fuel st' w1)
        as [[o2 w2] evs2] eqn:Hl.
      inversion H; subst. apply Forall_app. split; [exact H1|].
      exact (IH _ _ _ _ _ Hl).
    + inversion H; subst. rewrite app_nil_r. exact H1.
    + inversion H; subst. rewrite app_nil_r. exact H1.
    + inversion H; subst. exact H1.
    + inversion H; subst. exact H1.
Qed.

Lemma recv_text_events (P : Event -> Prop) self ar pr fuel :
  (forall t, P (EvNow t)) ->
  (forall chunk, P (EvObserve chunk)) ->
  (forall st w o w' evs,
      recv_pass now re_search self (or_default ar (auto_replies self))
                (or_default pr (prompts self)) fuel st w = (o, w', evs) ->
      Forall P evs) ->
  forall w o w' evs,
    recv_text now re_search self ar pr fuel w = (o, w', evs) ->
    Forall P evs.
Proof.
  intros Hnow Hobs Hpass w o w' evs H. unfold recv_text in H.
  destruct (recv_nbytes self <=? 0)%Z; [inversion H; constructor|].
  destruct (Qle_bool (recv_timeout self) 0); [inversion H; constructor|].
  unfold bind at 1 in H. unfold datetime_now in H.
  destruct (now w) as [t0 w0]. unfold bind in H.
  destruct (recv_loop now re_search self (or_default ar (auto_replies self))
              (or_default pr (prompts self)) fuel fuel (initial_state t0) w0)
    as [[ol w1] evs1] eqn:Hl.
  assert (H1 : Forall P evs1)
    by (eapply recv_loop_events; [exact Hpass|exact Hl]).
  destruct ol as [[stb|r]|e|].
  - destruct (recv_epilogue self stb w1) as [[oe w2] evs2] eqn:He.
    inversion H; subst. constructor; [apply Hnow|].
    apply Forall_app. split; [exact H1|].
    destruct (recv_epilogue_events _ _ _ He) as [-> | [chunk ->]];
      repeat constructor. apply Hobs.
  - inversion H; subst. constructor; [apply Hnow|].
    rewrite app_nil_r. exact H1.
  - inversion H; subst. constructor; [apply Hnow|exact H1].
  - inversion H; subst. constructor; [apply Hnow|exact H1].
Qed.

Lemma Forall_notification (P : Event -> Prop) self chunk :
  (forall c, P (EvObserve c)) -> Forall P (notification self chunk).
Proof.
  intros H. unfold notification.
  destruct (on_recv_partial_text self); repeat constructor. apply H.
Qed.

(** X10: [recv_text] writes nothing of its own.  Whatever the outcome of a
    call, every write it made is the encoding of the reply that the
    auto-reply map in force gives for one of its non-empty patterns. *)
Theorem recv_text_writes_only_replies self ar pr fuel w o w' evs :
  recv_text now re_search self ar pr fuel w = (o, w', evs) ->
  Forall (fun e =>
            match e with
            | EvSend data _ =>
              exists pattern reply,
                In (pattern, reply) (or_default ar (auto_replies self))
                /\ pattern <> []
                /\ encode (encoding self) reply = Some data
            | _ => True
            end) evs.
Proof.
  apply recv_text_events; try (intros; exact I).
  intros st w0 o0 w0' evs0 Hp. apply recv_pass_course in Hp.
  destruct Hp;
    try match goal with
        | Hd : drain _ _ _ _ _ = _ |- _ =>
          destruct (drain_spec _ _ _ _ _ Hd) as (Hreads & _ & _)
        end;
    repeat first
      [ apply Forall_nil
      | apply Forall_cons; [exact I|]
      | apply Forall_app; split
      | solve [apply Forall_notification; intros; exact I]
      | solve [eapply Forall_impl; [|exact Hreads];
               intros [] He; try contradiction; exact I] ].
  constructor; [|repeat constructor].
  match goal with
  | Hp : if_truthy _ = Some _ |- _ =>
    apply if_truthy_Some in Hp; destruct Hp as [_ Hne]
  end.
  exists pattern, reply. repeat split; [|exact Hne|assumption].
  apply dict_get_In. assumption.
Qed.

Lemma max0_nonneg x : 0 <= max0 x.
Proof.
  unfold max0. destruct (Qle_bool x 0) eqn:E; [apply Qle_refl|].
  destruct (Qlt_le_dec 0 x) as [Hlt|Hle]; [apply Qlt_le_weak; exact Hlt|].
  apply Qle_bool_iff in Hle. congruence.
Qed.

Lemma drain_reads_nbytes dfuel (session : Channel W) nbytes :
  forall buf w o w' evs,
    drain dfuel session nbytes buf w = (o, w', evs) ->
    Forall (fun e => match e with
                     | EvRecv n _ => n = nbytes
                     | EvRecvReady _ => True
                     | _ => False
                     end) evs.
Proof.
  induction dfuel as [|dfuel IH]; intros buf w o w' evs H.
  - inversion H; subst. constructor.
  - cbn [drain] in H. unfold bind, channel_recv_ready, channel_recv in H.
    destruct (recv_ready session w) as [ready w1].
    destruct ready.
    + destruct (recv session nbytes w1) as [data w2].
      destruct (drain dfuel session nbytes (buf ++ data) w2)
        as [[o2 w3] evs2] eqn:E.
      pose proof (IH _ _ _ _ _ E) as IH'.
      destruct o2; inversion H; subst; repeat constructor; exact IH'.
    + inversion H; subst. repeat constructor.
Qed.

(** X11: how [recv_text] treats the channel while waiting and reading.
    Every timeout it hands to [select] is a number that is not negative
    (never [None], which would block for ever), and every read asks for
    exactly [recv_nbytes] bytes. *)
Theorem recv_text_waits_and_reads self ar pr fuel w o w' evs :
  recv_text now re_search self ar pr fuel w = (o, w', evs) ->
  Forall (fun e =>
            match e with
            | EvSelect timeout _ => exists d, timeout = Some d /\ 0 <= d
            | EvRecv nbytes _ => nbytes = recv_nbytes self
            | _ => True
            end) evs.
Proof.
  apply recv_text_events; try (intros; exact I).
  intros st w0 o0 w0' evs0 Hp. apply recv_pass_course in Hp.
  assert (Hwait : forall t, exists d,
               Some (remaining self st t) = Some d /\ 0 <= d).
  { intros t. eexists. split; [reflexivity|]. apply max0_nonneg. }
  destruct Hp;
    try match goal with
        | Hd : drain _ _ _ _ _ = _ |- _ =>
          apply drain_reads_nbytes in Hd
        end;
    repeat first
      [ apply Forall_nil
      | apply Forall_cons; [first [exact I | apply Hwait]|]
      | apply Forall_app; split
      | solve [apply Forall_notification; intros; exact I]
      | solve [eapply Forall_impl; [|eassumption];
               intros [] He; try contradiction; auto] ].
Qed.

Lemma recv_loop_returned self ar pr dfuel fuel :
  forall st w r w' evs,
    recv_loop now re_search self ar pr dfuel fuel st w
      = (Ret (Returned r), w', evs) ->
    exists n st1 w1 evs1 evs2,
      recv_passes now re_search self ar pr dfuel n st w
        = (Ret (Some st1), w1, evs1)
      /\ recv_pass now re_search self ar pr dfuel st1 w1
          = (Ret (Return r), w', evs2)
      /\ evs = evs1 ++ evs2.
Proof.
  induction fuel as [|fuel IH]; intros st w r w' evs H; [discriminate|].
  cbn [recv_loop] in H. unfold bind in H.
  destruct (recv_pass now re_search self ar pr dfuel st w)
    as [[oc w1] evs1] eqn:Hp.
  destruct oc as [[st'|st'|r']|e|]; try discriminate.
  - destruct (recv_loop now re_search self ar pr dfuel fuel st' w1)
      as [[o2 w2] evs2] eqn:Hl.
    inversion H; subst.
    destruct (IH _ _ _ _ _ Hl) as (n & st1 & w3 & ev3 & ev4 & Hn & Hb & ->).
    exists (S n), st1, w3, (evs1 ++ ev3), ev4.
    cbn [recv_passes]. unfold bind. rewrite Hp, Hn, Hb, app_assoc.
    repeat split.
  - inversion H; subst. exists O, st, w, [], (evs1 ++ []).
    cbn [recv_passes]. unfold ret. rewrite Hp, app_nil_r. repeat split.
Qed.

(** The two ways [recv_text] returns, in terms of its loop. *)
Lemma recv_text_returns self ar pr fuel w res w' evs :
  recv_text now re_search self ar pr fuel w = (Ret res, w', evs) ->
  exists t0 w0 exit w1 evs1,
    now w = (t0, w0)
    /\ recv_loop now re_search self (or_default ar (auto_replies self))
         (or_default pr (prompts self)) fuel fuel (initial_state t0) w0
       = (Ret exit, w1, evs1)
    /\ match exit with
       | Returned r => res = r /\ w' = w1 /\ evs = EvNow t0 :: evs1
       | Broke st =>
         let remainder :=
           if truthy (recv_buffer st)
           then decode_replace (encoding self) (recv_buffer st) else [] in
         res = ((text_archived st ++ text_buffer st) ++ remainder, None)
         /\ exists evs2, evs = EvNow t0 :: evs1 ++ evs2 /\ received evs2 = []
       end.
Proof.
  unfold recv_text. intros H.
  destruct (recv_nbytes self <=? 0)%Z; [discriminate|].
  destruct (Qle_bool (recv_timeout self) 0); [discriminate|].
  unfold bind at 1 in H. unfold datetime_now in H.
  destruct (now w) as [t0 w0]. unfold bind in H.
  destruct (recv_loop now re_search self (or_default ar (auto_replies self))
              (or_default pr (prompts self)) fuel fuel (initial_state t0) w0)
    as [[ol w1] evs1] eqn:Hl.
  destruct ol as [[stb|r]|e|]; try discriminate.
  - exists t0, w0, (Broke stb), w1, evs1. split; [reflexivity|].
    split; [exact Hl|].
    unfold recv_epilogue, bind, notify, ret in H. cbv zeta.
    destruct (truthy (recv_buffer stb));
      [destruct (on_recv_partial_text self)|];
      inversion H; subst; (split; [reflexivity|]);
      eexists; (split; [reflexivity|reflexivity]).
  - exists t0, w0, (Returned r), w1, evs1. split; [reflexivity|].
    split; [exact Hl|]. unfold ret in H. inversion H; subst.
    rewrite app_nil_r. repeat split.
Qed.

Lemma if_truthy_None (x : option text) :
  if_truthy x = None -> x = None \/ x = Some [].
Proof.
  destruct x as [[|c q]|]; cbn; intros H;
    [right; reflexivity|discriminate|left; reflexivity].
Qed.

Lemma received_pass_read t d reads self decoded :
  received ([EvNow t; EvSelect d true] ++ reads ++ notification self decoded)
  = received reads.
Proof.
  cbn [app received flat_map].
  change (flat_map _ (reads ++ notification self decoded))
    with (received (reads ++ notification self decoded)).
  rewrite received_app, received_notification, app_nil_r. reflexivity.
Qed.

(** X12: what a call that ends with a prompt returns.  The prompt is a
    non-empty member of the prompt list in force.  The returned text is
    the concatenation of the strict decodings of consecutive pieces that
    make up all the bytes received: nothing is left undecoded and nothing
    is repeated, and a configured observer was given exactly those pieces.
    With [st] the loop state before the pass that returned and [decoded]
    the text that pass decoded from [recv_buffer] and what it read: the
    text is [text_archived] of [st] followed by the tail
    [text_buffer + decoded]; the prompt is the first pattern of the prompt
    list that [re.search] finds in that tail; and the first key of the
    auto-reply map found in that tail, if there is one, is the empty
    string.  (An empty key that matches is taken for no match and hides
    every key after it, so a non-empty key after it may well match the
    tail.) *)
Theorem recv_text_result_with_prompt self ar pr fuel w txt prompt w' evs :
  recv_text now re_search self ar pr fuel w
    = (Ret (txt, Some prompt), w', evs) ->
  In prompt (or_default pr (prompts self))
  /\ prompt <> []
  /\ (exists segments,
        decoded_in_segments (encoding self) segments
        /\ received evs = List.concat (map fst segments)
        /\ txt = List.concat (map snd segments)
        /\ (on_recv_partial_text self <> None ->
            observed evs = map snd segments))
  /\ (exists n st w1 evs1 evs2 decoded,
        recv_passes now re_search self
          (or_default ar (auto_replies self)) (or_default pr (prompts self))
          fuel n (initial_state (fst (now w))) (snd (now w))
        = (Ret (Some st), w1, evs1)
        /\ recv_pass now re_search self
             (or_default ar (auto_replies self)) (or_default pr (prompts self))
             fuel st w1
           = (Ret (Return (txt, Some prompt)), w', evs2)
        /\ evs = EvNow (fst (now w)) :: evs1 ++ evs2
        /\ decode_strict (encoding self) (recv_buffer st ++ received evs2)
           = Some decoded
        /\ txt = text_archived st ++ (text_buffer st ++ decoded)
        /\ _find_pattern re_search (or_default pr (prompts self))
                         (text_buffer st ++ decoded) = Some prompt
        /\ (_find_pattern re_search
              (keys (or_default ar (auto_replies self)))
              (text_buffer st ++ decoded) = None
            \/ _find_pattern re_search
                 (keys (or_default ar (auto_replies self)))
                 (text_buffer st ++ decoded) = Some [])).
Proof.
  intros H.
  destruct (recv_text_returns _ _ _ _ _ H)
    as (t0 & w0 & exit & w1 & evs1 & Hnow & Hl & Hexit).
  rewrite Hnow. cbn [fst snd].
  destruct exit as [stb|r]; [destruct Hexit as [Hres _]; discriminate|].
  destruct Hexit as (<- & -> & ->).
  destruct (recv_loop_returned _ _ _ _ _ _ _ Hl)
    as (n & st1 & w2 & ev1 & ev2 & Hn & Hpass & ->).
  pose proof Hn as Hinv.
  apply (recv_passes_invariant _ _ _ _ _ _
           (boundary_invariant_initial self _)) in Hinv.
  cbn [app] in Hinv.
  pose proof Hpass as Hcourse.
  apply recv_pass_course in Hcourse. inversion Hcourse; subst.
  match goal with
  | Hd : drain _ _ _ _ _ = _ |- _ =>
    destruct (drain_spec _ _ _ _ _ Hd) as (Hreads & _ & Hbuf);
      specialize (Hbuf _ eq_refl)
  end.
  match goal with
  | Hq : if_truthy (_find_pattern re_search (or_default pr _) _) = Some _ |- _ =>
    apply if_truthy_Some in Hq; destruct Hq as [Hfirst Hne];
      destruct (find_pattern_sound _ _ Hfirst) as [Hin Hmatch]
  end.
  match goal with
  | Hk : if_truthy (_find_pattern re_search (keys _) _) = None |- _ =>
    apply if_truthy_None in Hk; rename Hk into Hkeys
  end.
  split; [exact Hin|]. split; [exact Hne|]. split.
  - set (st' := mkLoop (wait_start_time st1) []
                       (text_buffer st1 ++ decoded) (text_archived st1)).
    assert (Hst' : boundary_invariant (encoding self)
                     (on_recv_partial_text self <> None) st'
                     (ev1 ++ [EvNow t; EvSelect (Some (remaining self st1 t)) true]
                          ++ reads ++ notification self decoded ++ [])).
    { eapply decoded_segment_added; try eassumption; try reflexivity.
      subst st'. cbn [text_archived text_buffer]. rewrite app_assoc.
      reflexivity. }
    rewrite app_nil_r in Hst'.
    destruct Hst' as (segs & Hsegs & Hrecv & Htext & _ & Hobs).
    subst st'. cbn [recv_buffer text_archived text_buffer] in *.
    rewrite app_nil_r in Hrecv.
    exists segs. repeat split; assumption.
  - exists n, st1, w2, ev1,
      ([EvNow t; EvSelect (Some (remaining self st1 t)) true]
         ++ reads ++ notification self decoded), decoded.
    split; [exact Hn|]. split; [exact Hpass|]. split; [reflexivity|].
    split; [rewrite received_pass_read; congruence|].
    split; [reflexivity|]. split; [exact Hfirst|exact Hkeys].
Qed.

(** X13: what a call that ends without a prompt (timeout, closed or absent
    channel) returns.  With [st] the loop state before the pass that broke
    out of the loop: the bytes received are consecutive pieces that each
    decoded strictly, followed by [recv_buffer] of [st], which does not
    unless it is empty; [text_archived + text_buffer] of [st] is the texts
    of those pieces in order.  The returned text is that text, then
    [text_buffer] of [st] once more (the text decoded since the last
    auto-reply, which the [break] archives without emptying it), then
    [recv_buffer] decoded with the replace handler. *)
Theorem recv_text_result_without_prompt self ar pr fuel w txt w' evs :
  recv_text now re_search self ar pr fuel w = (Ret (txt, None), w', evs) ->
  exists n st w1 evs1 segments,
    recv_passes now re_search self
      (or_default ar (auto_replies self)) (or_default pr (prompts self))
      fuel n (initial_state (fst (now w))) (snd (now w))
    = (Ret (Some st), w1, evs1)
    /\ (exists w2 evs2,
          recv_pass now re_search self
            (or_default ar (auto_replies self)) (or_default pr (prompts self))
            fuel st w1
          = (Ret (Break (archive_on_break st)), w2, evs2))
    /\ decoded_in_segments (encoding self) segments
    /\ received evs = List.concat (map fst segments) ++ recv_buffer st
    /\ (recv_buffer st <> [] ->
        decode_strict (encoding self) (recv_buffer st) = None)
    /\ List.concat (map snd segments) = text_archived st ++ text_buffer st
    /\ txt = ((text_archived st ++ text_buffer st) ++ text_buffer st)
             ++ (if truthy (recv_buffer st)
                 then decode_replace (encoding self) (recv_buffer st)
                 else []).
Proof.
  intros H.
  destruct (recv_text_returns _ _ _ _ _ H)
    as (t0 & w0 & exit & w1 & evs1 & Hnow & Hl & Hexit).
  rewrite Hnow. cbn [fst snd].
  destruct exit as [stb|r].
  - cbv zeta in Hexit. destruct Hexit as (Hres & evs2 & -> & Hnone).
    destruct (recv_loop_broke _ _ _ _ _ _ _ Hl)
      as (n & st1 & w2 & ev1 & ev2 & Hn & Hb & ->).
    destruct (break_is_close_or_timeout _ _ _ _ _ _ Hb) as [-> _].
    assert (Hquiet : received ev2 = []).
    { pose proof Hb as Hcourse. apply recv_pass_course in Hcourse.
      inversion Hcourse; subst; reflexivity. }
    pose proof Hn as Hinv.
    apply (recv_passes_invariant _ _ _ _ _ _
             (boundary_invariant_initial self _)) in Hinv.
    cbn [app] in Hinv.
    destruct Hinv as (segs & Hsegs & Hrecv & Htext & Hrest & _).
    cbn [archive_on_break recv_buffer text_archived text_buffer] in Hres.
    exists n, st1, w2, ev1, segs.
    split; [exact Hn|]. split; [exists w1, ev2; exact Hb|].
    split; [exact Hsegs|]. split.
    { change (received (EvNow t0 :: (ev1 ++ ev2) ++ evs2))
        with (received ((ev1 ++ ev2) ++ evs2)).
      rewrite !received_app, Hrecv, Hquiet, Hnone, !app_nil_r. reflexivity. }
    split; [exact Hrest|]. split; [symmetry; exact Htext|].
    inversion Hres. reflexivity.
  - exfalso. destruct Hexit as (<- & _ & _).
    destruct (recv_loop_returned _ _ _ _ _ _ _ Hl)
      as (n & st1 & w2 & ev1 & ev2 & _ & Hpass & _).
    apply recv_pass_course in Hpass. inversion Hpass.
Qed.

End ClientProperties.

(** ** The life cycle *)

Section LifecycleProperties.

Variables W E Transport V : Type.
Variable paramiko : Paramiko W E Transport V.
Variable now : W -> Q * W.
Variable re_search : text -> text -> bool.

Implicit Types (self : InteractiveSSHClient W) (w : W).

Ltac unfold_life :=
  unfold open_shell, close_shell, _open_session, _open_connection,
    _close_session, _close_connection, try_except, then_, call, call_for,
    perform, log, done, fail, get_session, assign_session, session_closed.

Lemma set_session_None_same self :
  _session self = None -> set_session self None = self.
Proof. destruct self. cbn. intros ->. reflexivity. Qed.

Lemma _close_session_run self w :
  _close_session paramiko self w
  = (Done tt, set_session self None, channel_shut_down paramiko self w,
     shutdown_events self w).
Proof.
  unfold_life. unfold channel_shut_down, shutdown_events, holds_open_channel.
  destruct (_session self) as [session|] eqn:Hs.
  - destruct (closed session w); reflexivity.
  - rewrite (set_session_None_same _ Hs). reflexivity.
Qed.

Lemma _close_connection_run self w :
  _close_connection paramiko self w
  = (Done tt, self, sshc_close paramiko w,
     [LvConnectionClose; LvLog Info ConnectionClosed]).
Proof. reflexivity. Qed.

Lemma close_shell_run self w :
  close_shell paramiko self w
  = (Done tt, set_session self None,
     sshc_close paramiko (channel_shut_down paramiko self w),
     shutdown_events self w
       ++ [LvConnectionClose; LvLog Info ConnectionClosed]).
Proof.
  unfold close_shell, then_.
  rewrite _close_session_run, _close_connection_run. reflexivity.
Qed.

(** X1: [close_shell] never fails, whatever state the client is in.  It
    leaves [_session] at [None] and the other attributes as they were; it
    closes the channel exactly when the client holds one that does not
    report closed, and then, always and once, the connection. *)
Theorem close_shell_always_closes self w :
  exists w' evs,
    close_shell paramiko self w = (Done tt, set_session self None, w', evs)
    /\ evs = (if holds_open_channel self w
              then [LvChannelClose; LvLog Info ShellTerminated]
              else [])
             ++ [LvConnectionClose; LvLog Info ConnectionClosed]
    /\ w' = sshc_close paramiko (channel_shut_down paramiko self w).
Proof.
  rewrite close_shell_run. do 2 eexists. repeat split.
Qed.

(** X2: after [close_shell] the client is disconnected for its other
    methods, whatever the world does next: [send_text] raises
    [RuntimeError("Not connected.")], [recv_text] with a valid configuration
    returns the empty text and no prompt after one clock reading, and a
    second [close_shell] touches no channel: it only closes the connection
    again. *)
Theorem closed_shell_is_disconnected self w r self' w' evs :
  close_shell paramiko self w = (r, self', w', evs) ->
  valid_configuration self ->
  forall w1,
    (forall txt,
        send_text self' txt w1
        = (Raise (RuntimeError "Not connected."), w1, []))
    /\ (forall ar pr fuel,
          recv_text now re_search self' ar pr (S fuel) w1
          = (Ret ([], None), snd (now w1), [EvNow (fst (now w1))]))
    /\ close_shell paramiko self' w1
       = (Done tt, self', sshc_close paramiko w1,
          [LvConnectionClose; LvLog Info ConnectionClosed]).
Proof.
  rewrite close_shell_run. intros H Hv w1. inversion H; subst. clear H.
  split; [|split].
  - intros txt. reflexivity.
  - intros ar pr fuel. apply recv_text_breaks_at_once; [exact Hv|exact I].
  - rewrite close_shell_run. reflexivity.
Qed.

(** X3: [_open_session] leaves no half-open shell behind.  Whenever it
    fails, at whichever step, [_session] is [None] afterwards, the failure
    has been logged, and the last thing done is closing the connection. *)
Theorem open_session_failure_cleans_up self w f self' w' evs :
  _open_session paramiko self w = (Failed f, self', w', evs) ->
  _session self' = None
  /\ exists before,
      evs = before ++ [LvConnectionClose; LvLog Info ConnectionClosed]
      /\ In (LvLog Exception OpenShellFailed) before.
Proof.
  unfold _open_session, try_except. fold (close_shell paramiko).
  set (body := then_ (log Debug OpeningShell) _).
  destruct (body self w) as [[[rb selfb] wb] evb] eqn:Hb.
  destruct rb as [a|fb]; [discriminate|].
  unfold then_ at 1. unfold log at 1.
  unfold then_. rewrite _close_session_run, _close_connection_run.
  unfold fail. intros H. inversion H; subst. split; [reflexivity|].
  exists (evb ++ [LvLog Exception OpenShellFailed] ++ shutdown_events selfb wb).
  split.
  - rewrite <- !app_assoc. reflexivity.
  - apply in_or_app. right. left. reflexivity.
Qed.

Lemma open_session_done self w self' w' evs :
  _open_session paramiko self w = (Done tt, self', w', evs) ->
  exists transport session w1 w2,
    sshc_get_transport paramiko w = (inr (Some transport), w1)
    /\ transport_open_session paramiko transport w1 = (inr session, w2)
    /\ self' = set_session self (Some session)
    /\ In LvOpenSession evs.
Proof.
  unfold _open_session, try_except.
  set (body := then_ (log Debug OpeningShell) _).
  destruct (body self w) as [[[rb selfb] wb] evb] eqn:Hb.
  destruct rb as [[]|fb].
  - intros H. inversion H; subst. clear H. revert Hb. subst body.
    unfold then_, call, call_for, log, fail, assign_session.
    destruct (sshc_get_transport paramiko w) as [[e|[transport|]] w1];
      try discriminate.
    destruct (transport_open_session paramiko transport w1)
      as [[e|session] w2] eqn:Ho; try discriminate.
    destruct (channel_get_pty paramiko session w2) as [[e|] w3];
      try discriminate.
    destruct (channel_invoke_shell paramiko session w3) as [[e|] w4];
      try discriminate.
    intros Hb. inversion Hb; subst.
    exists transport, session, w1, w2.
    split; [reflexivity|]. split; [exact Ho|]. split; [reflexivity|].
    cbn. auto.
  - unfold then_ at 1. unfold log at 1.
    unfold then_. rewrite _close_session_run, _close_connection_run.
    discriminate.
Qed.

(** X4: when [_open_session] succeeds, the client holds the channel that
    the transport's [open_session] returned and nothing else about it has
    changed; the pseudo-terminal was requested before the shell was
    invoked, and nothing was closed, not even a channel the client held
    before. *)
Theorem open_session_success self w self' w' evs :
  _open_session paramiko self w = (Done tt, self', w', evs) ->
  exists transport session w1 w2,
    sshc_get_transport paramiko w = (inr (Some transport), w1)
    /\ transport_open_session paramiko transport w1 = (inr session, w2)
    /\ self' = set_session self (Some session)
    /\ evs = [LvLog Debug OpeningShell; LvGetTransport; LvOpenSession;
              LvGetPty; LvInvokeShell; LvLog Info ShellOpened].
Proof.
  unfold _open_session, try_except.
  set (body := then_ (log Debug OpeningShell) _).
  destruct (body self w) as [[[rb selfb] wb] evb] eqn:Hb.
  destruct rb as [[]|fb].
  - intros H. inversion H; subst. clear H. revert Hb. subst body.
    unfold then_, call, call_for, log, fail, assign_session.
    destruct (sshc_get_transport paramiko w) as [[e|[transport|]] w1] eqn:Ht;
      try discriminate.
    destruct (transport_open_session paramiko transport w1)
      as [[e|session] w2] eqn:Ho; try discriminate.
    destruct (channel_get_pty paramiko session w2) as [[e|] w3] eqn:Hp;
      try discriminate.
    destruct (channel_invoke_shell paramiko session w3) as [[e|] w4] eqn:Hi;
      try discriminate.
    intros Hb. inversion Hb; subst.
    exists transport, session, w1, w2. repeat split. exact Ho.
  - unfold then_ at 1. unfold log at 1.
    unfold then_. rewrite _close_session_run, _close_connection_run.
    discriminate.
Qed.

(** X5: when [connect] raises, [open_shell] raises the same exception
    after logging the failure, and does nothing more: no transport is asked
    for, no session opened, [_session] is what it was, and the connection is
    not closed.  The port named in the log records is the [port] keyword
    argument, or the default port when there is none. *)
Theorem open_shell_connect_failure self w hostname kwargs e w1 :
  sshc_connect paramiko hostname kwargs w = (Some e, w1) ->
  let port := kwargs_get kwargs "port" (_SSH_DEFAULT_PORT paramiko) in
  open_shell paramiko hostname kwargs self w
  = (Failed (Library e), self, w1,
     [LvLog Debug (Connecting hostname port);
      LvConnect hostname kwargs;
      LvLog Exception (ConnectFailed hostname port)]).
Proof.
  intros Hc port. unfold_life. rewrite Hc. reflexivity.
Qed.

(** X6: after a successful [open_shell] the client is connected for
    [send_text].  It holds the channel that [open_session] of the
    transport of the connection just made returned, and is otherwise
    unchanged.  From then on [send_text] does not raise "Not connected.":
    a text the unchanged encoding can express is written to that channel in
    one write, the result being the count the channel reports, and a text
    it refuses raises [UnicodeEncodeError] with nothing written. *)
Theorem opened_shell_is_connected self w hostname kwargs self' w' evs :
  open_shell paramiko hostname kwargs self w = (Done tt, self', w', evs) ->
  exists wc transport session w1 w2,
    sshc_connect paramiko hostname kwargs w = (None, wc)
    /\ sshc_get_transport paramiko wc = (inr (Some transport), w1)
    /\ transport_open_session paramiko transport w1 = (inr session, w2)
    /\ self' = set_session self (Some session)
    /\ In LvOpenSession evs
    /\ forall txt w0,
        match encode (encoding self) txt with
        | Some data =>
          send_text self' txt w0
          = (Ret (fst (send session data w0)),
             snd (send session data w0),
             [EvSend data (fst (send session data w0))])
        | None =>
          send_text self' txt w0 = (Raise (UnicodeEncodeError txt), w0, [])
        end.
Proof.
  unfold open_shell, then_. intros H.
  destruct (_open_connection paramiko hostname kwargs self w)
    as [[[rc selfc] wc] evc] eqn:Hc.
  destruct rc as [[]|fc]; [|discriminate].
  destruct (_open_session paramiko selfc wc) as [[[rs selfs] ws] evs'] eqn:Hs.
  inversion H; subst. clear H.
  assert (Hself : selfc = self
                  /\ sshc_connect paramiko hostname kwargs w = (None, wc)).
  { revert Hc. unfold_life.
    destruct (sshc_connect paramiko hostname kwargs w) as [[e|] w1];
      intros Hc; inversion Hc; split; reflexivity. }
  destruct Hself as [-> Hconnect].
  destruct (open_session_done _ _ Hs)
    as (transport & session & w1 & w2 & Ht & Ho & -> & Hin).
  exists wc, transport, session, w1, w2.
  split; [exact Hconnect|]. split; [exact Ht|]. split; [exact Ho|].
  split; [reflexivity|]. split.
  - apply in_or_app. right. exact Hin.
  - intros txt w0. unfold send_text, channel_send.
    cbn [_session set_session encoding].
    destruct (encode (encoding self) txt) as [data|]; [|reflexivity].
    destruct (send session data w0). reflexivity.
Qed.

(** X7: a shell that cannot be started is shut down.  When the transport
    and the channel were obtained, the pseudo-terminal granted, and
    [invoke_shell] raises while the channel does not report closed,
    [_open_session] closes that channel, forgets it, closes the connection
    and raises the exception of [invoke_shell]. *)
Theorem failed_shell_start_is_shut_down
    self w transport session w1 w2 w3 e w4 :
  sshc_get_transport paramiko w = (inr (Some transport), w1) ->
  transport_open_session paramiko transport w1 = (inr session, w2) ->
  channel_get_pty paramiko session w2 = (None, w3) ->
  channel_invoke_shell paramiko session w3 = (Some e, w4) ->
  closed session w4 = false ->
  _open_session paramiko self w
  = (Failed (Library e), set_session self None,
     sshc_close paramiko (channel_close paramiko session w4),
     [LvLog Debug OpeningShell; LvGetTransport; LvOpenSession; LvGetPty;
      LvInvokeShell;
      LvLog Exception OpenShellFailed;
      LvChannelClose; LvLog Info ShellTerminated;
      LvConnectionClose; LvLog Info ConnectionClosed]).
Proof.
  intros Ht Ho Hp Hi Hc. unfold_life.
  rewrite Ht, Ho, Hp, Hi. cbn [_session set_session]. rewrite Hc.
  reflexivity.
Qed.

End LifecycleProperties.

(** ** The scenarios *)

Lemma run_eta {A B C} (r : A * B * C) : r = (fst (fst r), snd (fst r), snd r).
Proof. destruct r as [[a b] c]. reflexivity. Qed.

(** C1: the password dialogue.  With the auto-reply map
    {"Password:" -> "secret\n"} and the prompt list ["prompt>"], given as
    instance defaults or as call arguments, against a channel that delivers
    "Password:" and, only after the reply has been written, "prompt>",
    [recv_text] returns [("Password:prompt>", "prompt>")]; the trace shows
    one write, of the UTF-8 encoding of "secret\n", before "prompt>" is
    read.  Any fuel from 4 on gives this result. *)
Theorem auto_reply_round_trip (k : nat) :
  let reply := bytes_of_string ("secret" ++ newline) in
  let result := (text_of_string "Password:prompt>",
                 Some (text_of_string "prompt>")) in
  let trace :=
    [EvNow 0;
     EvNow 0; EvSelect (Some 30) true;
     EvRecvReady true; EvRecv 1024 (bytes_of_string "Password:");
     EvRecvReady false;
     EvSend reply 7; EvNow 1;
     EvNow 1; EvSelect (Some 30) true;
     EvRecvReady true; EvRecv 1024 (bytes_of_string "prompt>");
     EvRecvReady false] in
  exists w',
    Script.run_recv_text
      (Script.with_patterns (Some Script.password_replies)
         (Some Script.shell_prompts) (Script.client (Some Script.channel)))
      None None (4 + k) Script.password_dialogue
    = (Ret result, w', trace)
    /\ Script.run_recv_text (Script.client (Some Script.channel))
         (Some Script.password_replies) (Some Script.shell_prompts)
         (4 + k) Script.password_dialogue
       = (Ret result, w', trace)
    /\ encode utf8 (text_of_string ("secret" ++ newline)) = Some reply
    /\ written trace = [reply]
    /\ Script.sent w' = [reply].
Proof.
  cbv zeta. eexists. split; [|split; [|split; [|split]]].
  - unfold Script.run_recv_text.
    apply recv_text_more_fuel with (fuel := 4%nat);
      [vm_compute; reflexivity|discriminate|lia].
  - unfold Script.run_recv_text.
    apply recv_text_more_fuel with (fuel := 4%nat);
      [vm_compute; reflexivity|discriminate|lia].
  - reflexivity.
  - reflexivity.
  - reflexivity.
Qed.

(** C3, at the failing input: U+00E9 arrives as C3, then A9, then nothing.
    The first pass leaves C3 in the raw buffer without a decode, the second
    decodes C3 A9 to the one character and hands it to the observer once;
    but when the wait then times out [recv_text] returns the character
    twice: the [break] adds [text_buffer] to [text_archived] and the final
    [return] adds [text_buffer] again. *)
Theorem split_character_returned_twice_on_timeout (k : nat) :
  exists w',
    Script.run_recv_text
      (Script.with_observer (Script.client (Some Script.channel)))
      None None (3 + k) Script.split_e_acute
    = (Ret ([0xE9%N; 0xE9%N], None), w',
       [EvNow 0;
        EvNow 0; EvSelect (Some 30) true;
        EvRecvReady true; EvRecv 1024 [xc3]; EvRecvReady false;
        EvNow 1; EvSelect (Some 29) true;
        EvRecvReady true; EvRecv 1024 [xa9]; EvRecvReady false;
        EvObserve [0xE9%N];
        EvNow 2; EvSelect (Some 28) false])
    /\ utf8_encode_codepoint 0xE9%N = [xc3] ++ [xa9]
    /\ Script.seen w' = [[0xE9%N]].
Proof.
  eexists. split; [|split].
  - unfold Script.run_recv_text.
    apply recv_text_more_fuel with (fuel := 3%nat);
      [vm_compute; reflexivity|discriminate|lia].
  - reflexivity.
  - reflexivity.
Qed.

(** C5, at the failing input: the auto-reply map sends the empty pattern
    to "x", the prompt list is ["p"], and "p" arrives.  Both the auto-reply
    pattern and the prompt pattern match the text buffer, yet nothing is
    written and the call returns [("p", "p")] in that pass: [_find_pattern]
    returns the empty pattern, which [if auto_reply := ...] takes for no
    match. *)
Theorem empty_auto_reply_pattern_is_skipped (k : nat) :
  let p := text_of_string "p" in
  exists w',
    Script.run_recv_text (Script.client (Some Script.channel))
      (Some Script.empty_pattern_replies) (Some [p])
      (2 + k) Script.p_arrives
    = (Ret (p, Some p), w',
       [EvNow 0;
        EvNow 0; EvSelect (Some 30) true;
        EvRecvReady true; EvRecv 1024 (bytes_of_string "p");
        EvRecvReady false])
    /\ _find_pattern Script.literal_search
         (keys Script.empty_pattern_replies) p = Some []
    /\ _find_pattern Script.literal_search [p] p = Some p
    /\ Script.sent w' = [].
Proof.
  cbv zeta. eexists. split; [|split; [|split]].
  - unfold Script.run_recv_text.
    apply recv_text_more_fuel with (fuel := 2%nat);
      [vm_compute; reflexivity|discriminate|lia].
  - reflexivity.
  - reflexivity.
  - reflexivity.
Qed.

(** The only way to cut C3 A9 into pieces that each decode strictly is
    the two bytes together, with empty pieces around them: the text decoded
    is the one character. *)
Lemma segments_of_nothing segments :
  decoded_in_segments utf8 segments ->
  List.concat (map fst segments) = [] ->
  List.concat (map snd segments) = [].
Proof.
  induction 1 as [|[b t] segments Hb _ IH]; [reflexivity|].
  cbn [map fst snd List.concat]. intros Hc.
  apply app_eq_nil in Hc. destruct Hc as [-> Hc].
  cbn in Hb. inversion Hb; subst. apply IH. exact Hc.
Qed.

Lemma segments_of_e_acute segments :
  decoded_in_segments utf8 segments ->
  List.concat (map fst segments) = [xc3; xa9] ->
  List.concat (map snd segments) = [0xE9%N].
Proof.
  induction 1 as [|[b t] segments Hb Hrest IH]; [discriminate|].
  cbn [map fst snd List.concat]. intros Hc.
  destruct b as [|b0 [|b1 [|b2 b]]]; cbn [app] in Hc.
  - cbn in Hb. inversion Hb; subst. apply IH. exact Hc.
  - inversion Hc; subst. discriminate Hb.
  - inversion Hc as [[H0 H1 Hnil]]. subst b0 b1.
    cbn in Hb. inversion Hb; subst.
    rewrite (segments_of_nothing Hrest Hnil). reflexivity.
  - discriminate Hc.
Qed.

(** C9, at the failing input of C3: U+00E9 arrives as C3, then A9, then
    nothing, and the third pass leaves the loop by [break] on the timeout.
    At the boundary that pass leaves, where [recv_text] goes on to line
    217, the bytes received are C3 A9 and the raw buffer is empty, so all
    text strictly decoded in the call is the one character, however the
    bytes are cut into decodable pieces; but [text_archived + text_buffer]
    holds it twice, because the [break] archived [text_buffer] without
    emptying it.  The invariant of the pass boundaries fails there. *)
Theorem break_counts_text_buffer_twice (k : nat) :
  let self := Script.with_observer (Script.client (Some Script.channel)) in
  exists st w' evs,
    recv_loop Script.now Script.literal_search self [] [] (3 + k) (3 + k)
              (initial_state 0) Script.split_e_acute
    = (Ret (Broke st), w', evs)
    /\ received evs = [xc3; xa9]
    /\ recv_buffer st = []
    /\ (forall segments,
          decoded_in_segments utf8 segments ->
          received evs = List.concat (map fst segments) ++ recv_buffer st ->
          List.concat (map snd segments) = [0xE9%N])
    /\ text_archived st = [0xE9%N]
    /\ text_buffer st = [0xE9%N]
    /\ text_archived st ++ text_buffer st = [0xE9%N; 0xE9%N]
    /\ ~ boundary_invariant utf8 (on_recv_partial_text self <> None) st evs.
Proof.
  cbv zeta. eexists. eexists. eexists. split.
  - apply recv_loop_more_fuel with (dfuel := 3%nat) (fuel := 3%nat);
      [vm_compute; reflexivity|discriminate|lia|lia].
  - split; [reflexivity|]. split; [reflexivity|]. split.
    { intros segments Hsegs Hrecv. cbn [recv_buffer] in Hrecv.
      rewrite app_nil_r in Hrecv. apply segments_of_e_acute; [exact Hsegs|].
      symmetry. exact Hrecv. }
    split; [reflexivity|]. split; [reflexivity|]. split; [reflexivity|].
    intros (segments & Hsegs & Hrecv & Htext & _ & _).
    cbn [recv_buffer] in Hrecv. rewrite app_nil_r in Hrecv.
    rewrite (segments_of_e_acute Hsegs (eq_sym Hrecv)) in Htext.
    discriminate Htext.
Qed.

(** Counterexample to C8 read with an open channel being one that is held
    and does not report closed.  A client that holds a channel which
    reports closed has no open channel, yet [send_text] does not raise
    "Not connected.": it writes.  And on an open channel a text that the
    encoding cannot express is neither written nor counted: [send_text]
    raises [UnicodeEncodeError]. *)
Lemma send_text_claim_fails :
  let self := Script.client (Some Script.channel) in
  let hello := text_of_string "hello" in
  (holds_open_channel self Script.closed_from_the_start = false
   /\ send_text self hello Script.closed_from_the_start
      = (Ret 5%Z,
         snd (Script.send (bytes_of_string "hello")
                          Script.closed_from_the_start),
         [EvSend (bytes_of_string "hello") 5])
   /\ ~ ((exists w' evs,
            send_text self hello Script.closed_from_the_start
            = (Raise (RuntimeError "Not connected."), w', evs))
         <-> holds_open_channel self Script.closed_from_the_start = false))
  /\ (holds_open_channel self Script.password_dialogue = true
      /\ send_text self [0xD800%N] Script.password_dialogue
         = (Raise (UnicodeEncodeError [0xD800%N]),
            Script.password_dialogue, [])).
Proof.
  cbv zeta. split; [split; [reflexivity|split; [reflexivity|]]|].
  - intros [_ H]. destruct (H eq_refl) as (w' & evs & Hraise).
    discriminate Hraise.
  - split; reflexivity.
Qed.

(** ** The repository's tests, replayed on the model *)

Example test_try_decode_success :
  _try_decode (bytes_of_string "hello") utf8 = Some (text_of_string "hello").
Proof. reflexivity. Qed.

Example test_try_decode_failure : _try_decode [xff; xff] utf8 = None.
Proof. reflexivity. Qed.

Example test_find_pattern_match :
  _find_pattern Script.literal_search
    [text_of_string "world"; text_of_string "test"]
    (text_of_string "hello world")
  = Some (text_of_string "world").
Proof. reflexivity. Qed.

Example test_find_pattern_no_match :
  _find_pattern Script.literal_search
    [text_of_string "abc"; text_of_string "def"]
    (text_of_string "hello world")
  = None.
Proof. reflexivity. Qed.

Example test_recv_text_decode_fails :
  let run :=
    Script.run_recv_text
      (Script.with_patterns None (Some Script.shell_prompts)
         (Script.with_observer (Script.client (Some Script.channel))))
      None None 3 Script.undecodable in
  fst (fst run) = Ret (repeat replacement_character 4, None)
  /\ Script.seen (Script.world_of run) = [repeat replacement_character 4].
Proof. vm_compute. split; reflexivity. Qed.

Example test_recv_text_prompt_and_reply :
  let run :=
    Script.run_recv_text
      (Script.with_patterns (Some Script.yes_replies)
         (Some Script.shell_prompts)
         (Script.with_observer (Script.client (Some Script.channel))))
      None None 5 Script.dialogue_with_dummy_text in
  fst (fst run)
  = Ret (text_of_string ("Password:" ++ Script.dummy_text ++ "prompt>"),
         Some (text_of_string "prompt>"))
  /\ Script.sent (Script.world_of run)
     = [bytes_of_string ("yes" ++ newline)].
Proof. vm_compute. split; reflexivity. Qed.

(** ** The hypotheses are met

    Each theorem above that has hypotheses, applied to a run of the
    scripted environment. *)

Lemma recv_text_rejects_bad_configuration_witness :
  (recv_nbytes Script.misconfigured <= 0)%Z
  /\ exists msg,
      Script.run_recv_text Script.misconfigured None None 5
                           Script.password_dialogue
      = (Raise (ValueError msg), Script.password_dialogue, []).
Proof.
  split; [cbn; lia|].
  apply recv_text_rejects_bad_configuration. left. cbn. lia.
Defined.

Lemma recv_text_on_closed_channel_witness :
  Script.closed Script.closed_from_the_start = true
  /\ Script.run_recv_text (Script.client (Some Script.channel)) None None 1
                         Script.closed_from_the_start
     = (Ret ([], None), Script.closed_from_the_start, [EvNow 0]).
Proof.
  split; [reflexivity|].
  apply (@recv_text_on_closed_channel _ Script.now Script.literal_search
           (Script.client (Some Script.channel)) Script.channel
           None None 0%nat Script.closed_from_the_start).
  - split; reflexivity.
  - reflexivity.
  - reflexivity.
Defined.

Lemma recv_text_without_session_witness :
  Script.run_recv_text (Script.client None) None None 1 Script.password_dialogue
  = (Ret ([], None), Script.password_dialogue, [EvNow 0])
  /\ forall txt,
      send_text (Script.client None) txt Script.password_dialogue
      = (Raise (RuntimeError "Not connected."), Script.password_dialogue, []).
Proof.
  apply (@recv_text_without_session _ Script.now Script.literal_search
           (Script.client None) None None 0%nat Script.password_dialogue).
  - split; reflexivity.
  - reflexivity.
Defined.

Lemma send_text_spec_witness :
  let self := Script.client (Some Script.channel) in
  let w := Script.password_dialogue in
  send_text self (text_of_string "hello") w
  = (Ret 5%Z, snd (Script.send (bytes_of_string "hello") w),
     [EvSend (bytes_of_string "hello") 5])
  /\ send_text self [0xD800%N] w = (Raise (UnicodeEncodeError [0xD800%N]), w, [])
  /\ exists w' evs,
      send_text (Script.client None) (text_of_string "hello") w
      = (Raise (RuntimeError "Not connected."), w', evs).
Proof.
  intros self w. split; [|split].
  - exact (proj2 (send_text_spec self (text_of_string "hello") w)
                 Script.channel eq_refl).
  - exact (proj2 (send_text_spec self [0xD800%N] w) Script.channel eq_refl).
  - exact (proj2 (proj1 (send_text_spec (Script.client None)
                           (text_of_string "hello") w))
                 eq_refl).
Defined.


Lemma invariant_between_passes_witness :
  let self := Script.with_patterns (Some Script.password_replies)
                (Some Script.shell_prompts)
                (Script.with_observer (Script.client (Some Script.channel))) in
  let run := recv_passes Script.now Script.literal_search self
               Script.password_replies Script.shell_prompts 3 1
               (initial_state 0) Script.password_dialogue in
  fst (fst run) = Ret (Some (Script.state_of run))
  /\ boundary_invariant utf8 (on_recv_partial_text self <> None)
                        (Script.state_of run) (Script.events_of run).
Proof.
  intros self run. split; [reflexivity|].
  apply (@invariant_between_passes _ Script.now Script.literal_search self
           Script.password_replies Script.shell_prompts 3%nat 1%nat 0
           Script.password_dialogue (Script.state_of run) (snd (fst run))).
  vm_compute. reflexivity.
Defined.

Lemma recv_text_flushes_undecoded_remainder_witness :
  let self := Script.with_observer (Script.client (Some Script.channel)) in
  decode_strict utf8 [xc3] = None
  /\ Script.run_recv_text self None None 3 Script.closes_mid_character
     = (Ret ([replacement_character], None),
        Script.world_of
          (Script.run_recv_text self None None 3 Script.closes_mid_character),
        [EvNow 0;
         EvNow 0; EvSelect (Some 30) true;
         EvRecvReady true; EvRecv 1024 [xc3]; EvRecvReady false;
         EvObserve [replacement_character]]).
Proof.
  intros self.
  pose proof (@recv_text_flushes_undecoded_remainder _ Script.now
                Script.literal_search self None None 3%nat
                Script.closes_mid_character
                (mkLoop 0 [xc3] [] [])) as H.
  specialize (H _ _ (conj eq_refl eq_refl) eq_refl).
  exact (H ltac:(discriminate)).
Defined.

Lemma life_eta {A B C D} (r : A * B * C * D) :
  r = (fst (fst (fst r)), snd (fst (fst r)), snd (fst r), snd r).
Proof. destruct r as [[[a b] c] d]. reflexivity. Qed.

Lemma closed_shell_is_disconnected_witness :
  let run := close_shell Stage.paramiko Stage.attached
                         (Stage.online Stage.no_faults) in
  let self' := snd (fst (fst run)) in
  let w1 := snd (fst run) in
  (forall txt,
      send_text self' txt w1
      = (Raise (RuntimeError "Not connected."), w1, []))
  /\ (forall ar pr fuel,
        recv_text Stage.now Script.literal_search self' ar pr (S fuel) w1
        = (Ret ([], None), snd (Stage.now w1), [EvNow (fst (Stage.now w1))]))
  /\ close_shell Stage.paramiko self' w1
     = (Done tt, self', sshc_close Stage.paramiko w1,
        [LvConnectionClose; LvLog Info ConnectionClosed]).
Proof.
  intros run self' w1.
  apply (@closed_shell_is_disconnected _ _ _ _ Stage.paramiko Stage.now
           Script.literal_search Stage.attached
           (Stage.online Stage.no_faults)
           (fst (fst (fst run))) self' (snd (fst run)) (snd run)).
  - apply life_eta.
  - split; reflexivity.
Defined.

Lemma open_session_failure_cleans_up_witness :
  let run := _open_session Stage.paramiko Stage.fresh
                           (Stage.online Stage.shell_refused) in
  fst (fst (fst run)) = Failed (Library "no shell"%string)
  /\ _session (snd (fst (fst run))) = None
  /\ exists before,
      snd run = before ++ [LvConnectionClose; LvLog Info ConnectionClosed]
      /\ In (LvLog Exception OpenShellFailed) before.
Proof.
  intros run. split; [reflexivity|].
  pose proof (life_eta run) as Hrun.
  change (fst (fst (fst run)))
    with (@Failed string unit (Library "no shell"%string)) in Hrun.
  exact (open_session_failure_cleans_up _ _ _ Hrun).
Defined.

Lemma open_session_success_witness :
  let w := Stage.online Stage.no_faults in
  let run := _open_session Stage.paramiko Stage.fresh w in
  exists transport session w1 w2,
    sshc_get_transport Stage.paramiko w = (inr (Some transport), w1)
    /\ transport_open_session Stage.paramiko transport w1 = (inr session, w2)
    /\ snd (fst (fst run)) = set_session Stage.fresh (Some session)
    /\ snd run = [LvLog Debug OpeningShell; LvGetTransport; LvOpenSession;
                  LvGetPty; LvInvokeShell; LvLog Info ShellOpened].
Proof.
  intros w run.
  pose proof (life_eta run) as Hrun.
  change (fst (fst (fst run))) with (@Done string unit tt) in Hrun.
  exact (open_session_success _ _ _ Hrun).
Defined.

Lemma open_shell_connect_failure_witness :
  open_shell Stage.paramiko "example.com" Stage.port_2222 Stage.fresh
             (Stage.world Stage.connection_refused Script.password_dialogue)
  = (Failed (Library "connection refused"%string), Stage.fresh,
     Stage.world Stage.connection_refused Script.password_dialogue,
     [LvLog Debug (Connecting "example.com" 2222%Z);
      LvConnect "example.com" Stage.port_2222;
      LvLog Exception (ConnectFailed "example.com" 2222%Z)]).
Proof.
  apply (@open_shell_connect_failure _ _ _ _ Stage.paramiko Stage.fresh
           (Stage.world Stage.connection_refused Script.password_dialogue)
           "example.com" Stage.port_2222 "connection refused"%string).
  reflexivity.
Defined.

Lemma opened_shell_is_connected_witness :
  let w := Stage.offline in
  let run := open_shell Stage.paramiko "example.com" [] Stage.fresh w in
  exists wc transport session w1 w2,
    sshc_connect Stage.paramiko "example.com" [] w = (None, wc)
    /\ sshc_get_transport Stage.paramiko wc = (inr (Some transport), w1)
    /\ transport_open_session Stage.paramiko transport w1 = (inr session, w2)
    /\ snd (fst (fst run)) = set_session Stage.fresh (Some session)
    /\ In LvOpenSession (snd run)
    /\ forall txt w0,
        match encode utf8 txt with
        | Some data =>
          send_text (snd (fst (fst run))) txt w0
          = (Ret (fst (send session data w0)),
             snd (send session data w0),
             [EvSend data (fst (send session data w0))])
        | None =>
          send_text (snd (fst (fst run))) txt w0
          = (Raise (UnicodeEncodeError txt), w0, [])
        end.
Proof.
  intros w run.
  pose proof (life_eta run) as Hrun.
  change (fst (fst (fst run))) with (@Done string unit tt) in Hrun.
  exact (opened_shell_is_connected _ _ _ _ _ Hrun).
Defined.

Lemma failed_shell_start_is_shut_down_witness :
  let w := Stage.online Stage.shell_refused in
  _open_session Stage.paramiko Stage.fresh w
  = (Failed (Library "no shell"%string), set_session Stage.fresh None,
     sshc_close Stage.paramiko
       (channel_close Stage.paramiko Stage.channel w),
     [LvLog Debug OpeningShell; LvGetTransport; LvOpenSession; LvGetPty;
      LvInvokeShell;
      LvLog Exception OpenShellFailed;
      LvChannelClose; LvLog Info ShellTerminated;
      LvConnectionClose; LvLog Info ConnectionClosed]).
Proof.
  intros w.
  apply (@failed_shell_start_is_shut_down _ _ _ _ Stage.paramiko Stage.fresh
           w tt Stage.channel w w w "no shell"%string w);
    reflexivity.
Defined.


Lemma recv_text_writes_only_replies_witness :
  let self := Script.with_patterns (Some Script.password_replies)
                (Some Script.shell_prompts)
                (Script.client (Some Script.channel)) in
  let run := Script.run_recv_text self None None 4 Script.password_dialogue in
  Forall (fun e =>
            match e with
            | EvSend data _ =>
              exists pattern reply,
                In (pattern, reply) Script.password_replies
                /\ pattern <> []
                /\ encode utf8 reply = Some data
            | _ => True
            end) (Script.events_of run).
Proof.
  intros self run.
  apply (@recv_text_writes_only_replies _ Script.now Script.literal_search
           self None None 4%nat Script.password_dialogue
           (fst (fst run)) (snd (fst run))).
  apply run_eta.
Defined.

Lemma recv_text_waits_and_reads_witness :
  let self := Script.with_patterns (Some Script.password_replies)
                (Some Script.shell_prompts)
                (Script.client (Some Script.channel)) in
  let run := Script.run_recv_text self None None 4 Script.password_dialogue in
  Forall (fun e =>
            match e with
            | EvSelect timeout _ => exists d, timeout = Some d /\ 0 <= d
            | EvRecv nbytes _ => nbytes = 1024%Z
            | _ => True
            end) (Script.events_of run).
Proof.
  intros self run.
  apply (@recv_text_waits_and_reads _ Script.now Script.literal_search
           self None None 4%nat Script.password_dialogue
           (fst (fst run)) (snd (fst run))).
  apply run_eta.
Defined.

Lemma recv_text_result_with_prompt_witness :
  let self := Script.with_observer (Script.client (Some Script.channel)) in
  let replies := Script.hidden_pattern_replies in
  let p := text_of_string "p" in
  let w := Script.p_arrives in
  let run := Script.run_recv_text self (Some replies) (Some [p]) 2 w in
  (In p (keys replies) /\ Script.literal_search p p = true)
  /\ In p [p]
  /\ p <> []
  /\ (exists segments,
        decoded_in_segments utf8 segments
        /\ received (Script.events_of run) = List.concat (map fst segments)
        /\ p = List.concat (map snd segments)
        /\ (on_recv_partial_text self <> None ->
            observed (Script.events_of run) = map snd segments))
  /\ (exists n st w1 evs1 evs2 decoded,
        recv_passes Script.now Script.literal_search self replies [p]
                    2 n (initial_state 0) w
        = (Ret (Some st), w1, evs1)
        /\ recv_pass Script.now Script.literal_search self replies [p] 2 st w1
           = (Ret (Return (p, Some p)), snd (fst run), evs2)
        /\ snd run = EvNow 0 :: evs1 ++ evs2
        /\ decode_strict utf8 (recv_buffer st ++ received evs2) = Some decoded
        /\ p = text_archived st ++ (text_buffer st ++ decoded)
        /\ _find_pattern Script.literal_search [p] (text_buffer st ++ decoded)
           = Some p
        /\ (_find_pattern Script.literal_search (keys replies)
                          (text_buffer st ++ decoded) = None
            \/ _find_pattern Script.literal_search (keys replies)
                             (text_buffer st ++ decoded) = Some [])).
Proof.
  intros self replies p w run.
  split; [split; [right; left; reflexivity|reflexivity]|].
  apply (@recv_text_result_with_prompt _ Script.now Script.literal_search
           self (Some replies) (Some [p]) 2%nat w p p
           (snd (fst run)) (snd run)).
  pose proof (run_eta run) as Hrun.
  change (fst (fst run)) with (Ret (p, Some p)) in Hrun.
  exact Hrun.
Defined.

Lemma recv_text_result_without_prompt_witness :
  let self := Script.with_observer (Script.client (Some Script.channel)) in
  let w := Script.split_e_acute in
  let run := Script.run_recv_text self None None 3 w in
  exists n st w1 evs1 segments,
    recv_passes Script.now Script.literal_search self [] [] 3 n
                (initial_state 0) w
    = (Ret (Some st), w1, evs1)
    /\ (exists w2 evs2,
          recv_pass Script.now Script.literal_search self [] [] 3 st w1
          = (Ret (Break (archive_on_break st)), w2, evs2))
    /\ decoded_in_segments utf8 segments
    /\ received (Script.events_of run)
       = List.concat (map fst segments) ++ recv_buffer st
    /\ (recv_buffer st <> [] -> decode_strict utf8 (recv_buffer st) = None)
    /\ List.concat (map snd segments) = text_archived st ++ text_buffer st
    /\ [0xE9%N; 0xE9%N]
       = ((text_archived st ++ text_buffer st) ++ text_buffer st)
         ++ (if truthy (recv_buffer st)
             then decode_replace utf8 (recv_buffer st) else []).
Proof.
  intros self w run.
  apply (@recv_text_result_without_prompt _ Script.now Script.literal_search
           self None None 3%nat w [0xE9%N; 0xE9%N]
           (snd (fst run)) (snd run)).
  pose proof (run_eta run) as Hrun.
  change (fst (fst run))
    with (@Ret (text * option text) ([0xE9%N; 0xE9%N], None)) in Hrun.
  exact Hrun.
Defined.

Lemma try_decode_inverts_encode_witness :
  let t := [0x68%N; 0xE9%N; 0x3042%N; 0x1F600%N] in
  exists data,
    encode utf8 t = Some data
    /\ _try_decode data utf8 = Some t
    /\ decode_replace utf8 data = t.
Proof.
  intros t. apply try_decode_inverts_encode. reflexivity.
Defined.

Lemma try_decode_waits_for_split_character_witness :
  let t := text_of_string "caf" in
  exists data,
    encode utf8 t = Some data
    /\ _try_decode (data ++ [xc3]) utf8 = None
    /\ _try_decode ((data ++ [xc3]) ++ [xa9]) utf8 = Some (t ++ [0xE9%N]).
Proof.
  intros t.
  apply (@try_decode_waits_for_split_character t 0xE9%N [xc3] [xa9]);
    (reflexivity || discriminate).
Defined.
